(** * Upstream sync and Fusion patch automation: a shallow embedding

    Source: [hack/fusion/sync_upstream_and_apply_fusion_patch.py].

    The script is embedded in three layers:
    - [Py]: the Python [str] operations the script uses ([in], [endswith],
      [split], [join], [rstrip], [strip]) over lists of code points;
    - [Re]: the fragment of Python's [re] needed for [import_pattern];
    - the two patch functions, first as pure text transformers and then as
      the stateful functions of the script over an abstract environment
      (file system and external commands), together with [main]. *)

From Stdlib Require Import List Bool Arith NArith ZArith Lia Ascii String.
Import ListNotations.

Set Implicit Arguments.

(** ** Python strings *)

Module Py.

(** A Python [str] is a sequence of Unicode code points. *)
Definition char := N.
Definition text := list char.

Definition NL : char := 10%N.
Definition TAB : char := 9%N.
Definition QUOTE : char := 34%N.

(** String literals of the script; every literal used is ASCII. *)
Definition lit (s : string) : text := map N_of_ascii (list_ascii_of_string s).

(** [str.isspace] on one code point ([Py_UNICODE_ISSPACE]); the same set is
    used by [str.strip], [str.rstrip] and by the regex class [\s]. *)
Definition isspace (c : char) : bool :=
  ((9 <=? c) && (c <=? 13) || (28 <=? c) && (c <=? 32)
   || (c =? 133) || (c =? 160) || (c =? 5760)
   || (8192 <=? c) && (c <=? 8202)
   || (c =? 8232) || (c =? 8233) || (c =? 8239) || (c =? 8287)
   || (c =? 12288))%N.

(** [s.startswith(p)] *)
Fixpoint startswith (p s : text) : bool :=
  match p, s with
  | [], _ => true
  | _ :: _, [] => false
  | a :: p', b :: s' => (a =? b)%N && startswith p' s'
  end.

(** [sub in s] *)
Fixpoint contains (sub s : text) : bool :=
  startswith sub s ||
  match s with
  | [] => false
  | _ :: s' => contains sub s'
  end.

(** [s.endswith(suffix)] *)
Definition endswith (s suffix : text) : bool :=
  startswith (rev suffix) (rev s).

(** [s.split(sep)] for a one-character separator. *)
Fixpoint split (sep : char) (s : text) : list text :=
  match s with
  | [] => [[]]
  | c :: s' =>
      if (c =? sep)%N then [] :: split sep s'
      else match split sep s' with
           | [] => [[c]]
           | l :: ls => (c :: l) :: ls
           end
  end.

(** [sep.join(ls)] *)
Fixpoint join (sep : text) (ls : list text) : text :=
  match ls with
  | [] => []
  | l :: ls' =>
      match ls' with
      | [] => l
      | _ :: _ => l ++ sep ++ join sep ls'
      end
  end.

Fixpoint dropwhile (f : char -> bool) (s : text) : text :=
  match s with
  | [] => []
  | c :: s' => if f c then dropwhile f s' else s
  end.

(** [s.lstrip()], [s.rstrip()], [s.strip()] *)
Definition lstrip (s : text) : text := dropwhile isspace s.
Definition rstrip (s : text) : text := rev (dropwhile isspace (rev s)).
Definition strip (s : text) : text := lstrip (rstrip s).

(** [a == b] on [str]. *)
Fixpoint text_eqb (a b : text) : bool :=
  match a, b with
  | [], [] => true
  | x :: a', y :: b' => (x =? y)%N && text_eqb a' b'
  | _, _ => false
  end.

(** Truthiness of a [str]: non-empty. *)
Definition truthy (s : text) : bool :=
  match s with [] => false | _ :: _ => true end.

End Py.

(** ** Regular expressions

    The fragment of Python's [re] that [import_pattern] uses: literals,
    the class [\s], a negated one-character class, concatenation, [*] and
    [+].  Groups only bracket sub-patterns and are not represented.
    [re.search] backtracks exhaustively on this fragment, so it finds a
    match exactly when some substring is in the language of the pattern;
    the matcher below decides that with derivatives. *)

Module Re.
Import Py.

Inductive re : Type :=
| Void : re
| Eps : re
| Class : (char -> bool) -> re
| Cat : re -> re -> re
| Alt : re -> re -> re
| Star : re -> re.

Definition Chr (c : char) : re := Class (fun x => (x =? c)%N).
Definition Plus (r : re) : re := Cat r (Star r).

Fixpoint Lit (s : text) : re :=
  match s with
  | [] => Eps
  | c :: s' => Cat (Chr c) (Lit s')
  end.

Fixpoint Seq (rs : list re) : re :=
  match rs with
  | [] => Eps
  | r :: rs' => Cat r (Seq rs')
  end.

(** The language of a pattern. *)
Inductive lang : re -> text -> Prop :=
| LEps : lang Eps []
| LClass f c : f c = true -> lang (Class f) [c]
| LCat r1 r2 s1 s2 : lang r1 s1 -> lang r2 s2 -> lang (Cat r1 r2) (s1 ++ s2)
| LAltL r1 r2 s : lang r1 s -> lang (Alt r1 r2) s
| LAltR r1 r2 s : lang r2 s -> lang (Alt r1 r2) s
| LStar0 r : lang (Star r) []
| LStarS r s1 s2 : lang r s1 -> lang (Star r) s2 -> lang (Star r) (s1 ++ s2).

Fixpoint nullable (r : re) : bool :=
  match r with
  | Void => false
  | Eps => true
  | Class _ => false
  | Cat r1 r2 => nullable r1 && nullable r2
  | Alt r1 r2 => nullable r1 || nullable r2
  | Star _ => true
  end.

Fixpoint deriv (c : char) (r : re) : re :=
  match r with
  | Void => Void
  | Eps => Void
  | Class f => if f c then Eps else Void
  | Cat r1 r2 =>
      if nullable r1 then Alt (Cat (deriv c r1) r2) (deriv c r2)
      else Cat (deriv c r1) r2
  | Alt r1 r2 => Alt (deriv c r1) (deriv c r2)
  | Star r1 => Cat (deriv c r1) (Star r1)
  end.

(** [re.match(r, s) is not None]: some prefix of [s] matches. *)
Fixpoint match_prefix (r : re) (s : text) : bool :=
  nullable r ||
  match s with
  | [] => false
  | c :: s' => match_prefix (deriv c r) s'
  end.

(** [re.search(r, s) is not None]: some substring of [s] matches. *)
Fixpoint search (r : re) (s : text) : bool :=
  match_prefix r s ||
  match s with
  | [] => false
  | _ :: s' => search r s'
  end.

End Re.

(** ** The patch rules as text transformers *)

Import Py.

(** What a patch function did with the text it read: it found the hook
    ([AlreadyPresent], returns [True], nothing written), it computed a new
    text, wrote it and returned [True] ([Applied]), or it gave up and
    returned [False] ([NotFound], nothing written). *)
Inductive outcome : Type :=
| AlreadyPresent : outcome
| Applied : text -> outcome
| NotFound : outcome.

(** The text a patch function leaves in the file, given the text it read. *)
Definition result (content : text) (o : outcome) : text :=
  match o with
  | Applied content' => content'
  | AlreadyPresent | NotFound => content
  end.

(** The function took the writing path and reported "Applied ...". *)
Definition changed (o : outcome) : bool :=
  match o with
  | Applied _ => true
  | AlreadyPresent | NotFound => false
  end.


(** *** RULE_A: [apply_toolsets_patch], lines 152-185 *)

Definition fusion_code : text :=
  join [NL]
    [ [];
      lit "func init() {";
      TAB :: lit "// IBM Fusion extension integration point";
      TAB :: lit "// This is the single hook for registering IBM Fusion tools";
      TAB :: lit "// Tools are only registered if FUSION_TOOLS_ENABLED=true";
      TAB :: lit "registerFusionTools()";
      lit "}";
      [];
      lit "// registerFusionTools is a placeholder that will be implemented by the fusion package";
      lit "// This allows the fusion package to register itself without modifying upstream code";
      lit "var registerFusionTools = func() {}";
      [];
      lit "// SetFusionRegistration allows the fusion package to hook into the registration process";
      lit "// This is the single integration point for IBM Fusion tools";
      lit "func SetFusionRegistration(fn func()) {";
      TAB :: lit "registerFusionTools = fn";
      lit "}";
      [] ].

Definition toolsets_present (content : text) : bool :=
  contains (lit "registerFusionTools") content
  && contains (lit "SetFusionRegistration") content.

Definition toolsets_text (content : text) : outcome :=
  if toolsets_present content then AlreadyPresent
  else
    let content1 :=
      if negb (endswith content [NL]) then content ++ [NL] else content in
    let content2 := content1 ++ fusion_code in
    Applied content2.

(** *** RULE_B: [apply_modules_patch], lines 202-253 *)

(** Line 209: [(import\s*\(\s*\n)(\s*_\s*Q[^Q]+Q\s*\n)], where [Q] stands
    for the double-quote character. *)
Definition ws : Re.re := Re.Class isspace.
Definition notquote : Re.re := Re.Class (fun c => negb (c =? QUOTE)%N).

Definition import_pattern : Re.re :=
  Re.Seq
    [ Re.Lit (lit "import"); Re.Star ws; Re.Lit (lit "("); Re.Star ws;
      Re.Chr NL;
      Re.Star ws; Re.Lit (lit "_"); Re.Star ws; Re.Chr QUOTE;
      Re.Plus notquote; Re.Chr QUOTE; Re.Star ws; Re.Chr NL ].

Definition fusion_marker : text := lit "pkg/toolsets/fusion".

Definition fusion_import : text :=
  TAB :: lit "_ " ++ QUOTE ::
  lit "github.com/containers/kubernetes-mcp-server/pkg/toolsets/fusion"
  ++ [QUOTE; NL].

Definition open_marker : text := lit "import (".
Definition close_marker : text := lit ")".
Definition core_anchor : text := lit "pkg/toolsets/core".
Definition helm_anchor : text := lit "pkg/toolsets/helm".

(** The three loop variables of lines 222-224. *)
Record loop_state : Type := LoopState {
  new_lines : list text;
  import_added : bool;
  in_import_block : bool
}.

Definition loop_init : loop_state :=
  {| new_lines := []; import_added := false; in_import_block := false |}.

(** Lines 245-248: the end of the loop body, reached when no [continue]
    was taken. *)
Definition loop_tail (st : loop_state) (line : text) : loop_state :=
  let in_import_block1 :=
    if contains close_marker line && in_import_block st then false
    else in_import_block st in
  {| new_lines := new_lines st ++ [line];
     import_added := import_added st;
     in_import_block := in_import_block1 |}.

(** Lines 227-248: one iteration of [for line in lines]. *)
Definition loop_body (st : loop_state) (line : text) : loop_state :=
  if contains open_marker line then
    {| new_lines := new_lines st ++ [line];
       import_added := import_added st;
       in_import_block := true |}
  else if in_import_block st && negb (import_added st) then
    if contains core_anchor line then
      {| new_lines := (new_lines st ++ [line]) ++ [rstrip fusion_import];
         import_added := true;
         in_import_block := in_import_block st |}
    else if contains helm_anchor line && negb (import_added st) then
      {| new_lines := (new_lines st ++ [rstrip fusion_import]) ++ [line];
         import_added := true;
         in_import_block := in_import_block st |}
    else loop_tail st line
  else loop_tail st line.

Definition modules_loop (lines : list text) : loop_state :=
  fold_left loop_body lines loop_init.

Definition modules_text (content : text) : outcome :=
  if contains fusion_marker content then AlreadyPresent
  else if negb (Re.search import_pattern content) then NotFound
  else
    let lines := split NL content in
    let st := modules_loop lines in
    Applied (join [NL] (new_lines st)).

(** ** The script over its environment *)

(** Python exceptions that can leave a function of the script:
    [subprocess.CalledProcessError], raised by [run_command] with
    [check=True], and any other [Exception] (a failing [read_text] or
    [write_text], a [None] where a [str] is expected). *)
Inductive exn : Type :=
| CalledProcessError : text -> Z -> exn
| OtherError : exn.

(** How a call ends: it returns, [sys.exit] raises [SystemExit], or an
    [Exception] propagates. *)
Inductive res (A : Type) : Type :=
| Ret : A -> res A
| Exit : Z -> res A
| Raise : exn -> res A.

Arguments Ret {A} _.
Arguments Exit {A} _.
Arguments Raise {A} _.

(** What the script does to its environment, in order. *)
Inductive event : Type :=
| EvRun : text -> Z -> event
| EvExists : text -> bool -> event
| EvRead : text -> event
| EvWrite : text -> text -> event.

(** The environment: the working tree and the external commands.
    [exec cmd w] is the return code, the captured standard output and the
    environment after the shell command [cmd]; [read_text] answers [None]
    when Python raises.  [write_text p s w] says whether the write went
    through and gives the environment after it: [Path.write_text] opens
    the file for writing, which empties it, before it writes, so a write
    that raises need not leave the environment as it was. *)
Record env : Type := Env {
  World : Type;
  exec : text -> World -> Z * text * World;
  path_exists : text -> World -> bool;
  read_text : text -> World -> option text;
  write_text : text -> text -> World -> bool * World
}.

(** [subprocess.CompletedProcess]; [stdout] is [None] without
    [capture_output]. *)
Record completed : Type := Completed {
  returncode : Z;
  stdout : option text
}.

Definition toolsets_path : text := lit "pkg/toolsets/toolsets.go".
Definition modules_path : text := lit "pkg/mcp/modules.go".

Definition cmd_status : text := lit "git status --porcelain".
Definition cmd_remote_v : text := lit "git remote -v".
Definition cmd_remote_add : text :=
  lit "git remote add upstream https://github.com/containers/kubernetes-mcp-server.git".
Definition cmd_fetch : text := lit "git fetch upstream".
Definition cmd_checkout : text := lit "git checkout main".
Definition cmd_merge : text := lit "git merge upstream/main".
Definition cmd_test : text := lit "go test ./...".
Definition cmd_add : text := lit "git add -A".
Definition commit_msg : text :=
  lit "chore(fusion): sync upstream and apply fusion integration hooks".
Definition cmd_commit : text :=
  lit "git commit -m " ++ QUOTE :: commit_msg ++ [QUOTE].
Definition cmd_push : text := lit "git push origin main".

Section Script.

Variable E : env.

Record state : Type := State {
  world : World E;
  trace : list event
}.

Definition log (st : state) (w : World E) (e : event) : state :=
  {| world := w; trace := trace st ++ [e] |}.

(** Console output ([print_info], [print_error], ...) is not modelled. *)
Definition M (A : Type) : Type := state -> res A * state.

Definition ret {A} (a : A) : M A := fun st => (Ret a, st).

Definition bind {A B} (m : M A) (k : A -> M B) : M B :=
  fun st =>
    match m st with
    | (Ret a, st') => k a st'
    | (Exit c, st') => (Exit c, st')
    | (Raise e, st') => (Raise e, st')
    end.

(** [sys.exit(code)] *)
Definition sys_exit {A} (code : Z) : M A := fun st => (Exit code, st).

Definition raise {A} (e : exn) : M A := fun st => (Raise e, st).

Notation "x <- m ;; k" := (bind m (fun x => k))
  (at level 61, m at next level, right associativity).
Notation "m ;;; k" := (bind m (fun _ => k))
  (at level 61, right associativity).

(** Lines 53-67. *)
Definition run_command (cmd : text) (check capture_output : bool)
  : M completed :=
  fun st =>
    let '(rc, out, w) := exec E cmd (world st) in
    let st' := log st w (EvRun cmd rc) in
    if check && negb (rc =? 0)%Z then (Raise (CalledProcessError cmd rc), st')
    else (Ret {| returncode := rc;
                 stdout := if capture_output then Some out else None |}, st').

(** [result.stdout] used as a [str]. *)
Definition stdout_str (result : completed) : M text :=
  match stdout result with
  | Some s => ret s
  | None => raise OtherError
  end.

(** [Path.exists], [Path.read_text], [Path.write_text]. *)
Definition file_exists (p : text) : M bool :=
  fun st =>
    let b := path_exists E p (world st) in
    (Ret b, log st (world st) (EvExists p b)).

Definition file_read (p : text) : M text :=
  fun st =>
    match read_text E p (world st) with
    | Some s => (Ret s, log st (world st) (EvRead p))
    | None => (Raise OtherError, log st (world st) (EvRead p))
    end.

Definition file_write (p : text) (s : text) : M unit :=
  fun st =>
    let '(ok, w) := write_text E p s (world st) in
    let st' := log st w (EvWrite p s) in
    if ok then (Ret tt, st') else (Raise OtherError, st').

(** Lines 70-87. *)
Definition check_git_clean (force : bool) : M bool :=
  result <- run_command cmd_status true true ;;
  out <- stdout_str result ;;
  if truthy (strip out) then
    if force then ret true else ret false
  else ret true.

(** Lines 90-114. *)
Definition check_remotes : M bool :=
  result <- run_command cmd_remote_v true true ;;
  remotes <- stdout_str result ;;
  let has_origin :=
    contains (lit "origin") remotes
    && contains (lit "sandeepbazar/ibm-fusion-mcp-server") remotes in
  let has_upstream :=
    contains (lit "upstream") remotes
    && contains (lit "containers/kubernetes-mcp-server") remotes in
  if negb has_origin then ret false
  else
    (if negb has_upstream
     then run_command cmd_remote_add true true ;;; ret tt
     else ret tt) ;;;
    ret true.

(** Lines 117-137. *)
Definition sync_upstream : M unit :=
  run_command cmd_fetch true true ;;;
  run_command cmd_checkout true true ;;;
  result <- run_command cmd_merge false true ;;
  if negb (returncode result =? 0)%Z then sys_exit 1%Z
  else ret tt.

(** The end of a patch function: what it writes and what it returns. *)
Definition finish (file_path : text) (o : outcome) : M bool :=
  match o with
  | AlreadyPresent => ret true
  | Applied content => file_write file_path content ;;; ret true
  | NotFound => ret false
  end.

(** Lines 140-187. *)
Definition apply_toolsets_patch : M bool :=
  let file_path := toolsets_path in
  present <- file_exists file_path ;;
  if negb present then ret false
  else
    content <- file_read file_path ;;
    finish file_path (toolsets_text content).

(** Lines 190-253. *)
Definition apply_modules_patch : M bool :=
  let file_path := modules_path in
  present <- file_exists file_path ;;
  if negb present then ret false
  else
    content <- file_read file_path ;;
    finish file_path (modules_text content).

(** Lines 256-269. *)
Definition run_tests : M bool :=
  result <- run_command cmd_test false false ;;
  if negb (returncode result =? 0)%Z then ret false
  else ret true.

(** Lines 272-302. *)
Definition commit_and_push : M bool :=
  result <- run_command cmd_status true true ;;
  out <- stdout_str result ;;
  if negb (truthy (strip out)) then ret true
  else
    run_command cmd_add true true ;;;
    run_command cmd_commit true true ;;;
    result <- run_command cmd_push false true ;;
    if negb (returncode result =? 0)%Z then ret false
    else ret true.

(** Lines 305-358.  The working directory is the repository root
    ([os.chdir(repo_root)]), against which the two paths are resolved. *)
Definition main (argv : list text) : M unit :=
  let force := existsb (text_eqb (lit "--force")) argv in
  ok <- check_git_clean force ;;
  if negb ok then sys_exit 1%Z else
  ok <- check_remotes ;;
  if negb ok then sys_exit 1%Z else
  sync_upstream ;;;
  ok <- apply_toolsets_patch ;;
  if negb ok then sys_exit 1%Z else
  ok <- apply_modules_patch ;;
  if negb ok then sys_exit 1%Z else
  ok <- run_tests ;;
  if negb ok then sys_exit 1%Z else
  ok <- commit_and_push ;;
  if negb ok then sys_exit 1%Z else
  ret tt.

(** Lines 361-371: the exit code of the process.  [SystemExit] is not an
    [Exception], so it passes the handler; every [Exception] becomes
    [sys.exit(1)]. *)
Definition script (argv : list text) (st : state) : Z * state :=
  match main argv st with
  | (Ret _, st') => (0%Z, st')
  | (Exit code, st') => (code, st')
  | (Raise _, st') => (1%Z, st')
  end.

End Script.

(** ** Reading the import pattern

    What [import_pattern] looks for, spelled out: the word [import],
    white space, an opening parenthesis, white space, a line break, then a
    first entry line made of white space, an underscore, white space, a
    non-empty quoted path without quotes inside, white space and a line
    break.  No closing parenthesis is part of it. *)
Definition all_space (w : text) : Prop := forallb isspace w = true.

Definition import_block_start (p : text) : Prop :=
  exists w1 w2 w3 w4 path w5,
    all_space w1 /\ all_space w2 /\ all_space w3 /\ all_space w4
    /\ all_space w5
    /\ path <> [] /\ ~ In QUOTE path
    /\ p = lit "import" ++ w1 ++ lit "(" ++ w2 ++ [NL]
           ++ w3 ++ lit "_" ++ w4 ++ [QUOTE] ++ path ++ [QUOTE]
           ++ w5 ++ [NL].

(** ** Reading the loop of RULE_B

    The loop of [apply_modules_patch] keeps a flag, [in_import_block]:
    off at the start, switched on by every line that contains [import (]
    with the space, switched off by a line that contains a closing
    parenthesis while it is on.  What [import_pattern] matched plays no
    part in it.  The loop inserts next to the first line that it reaches
    with the flag on and that names one of the two anchors.  The
    definitions below say this without the accumulator. *)

Definition fusion_line : text := rstrip fusion_import.

(** [in_import_block] after one more line, while nothing is inserted
    (lines 227-230 and 245-246). *)
Definition flag_step (b : bool) (line : text) : bool :=
  if contains open_marker line then true
  else if contains close_marker line && b then false
  else b.

Definition flag_from (b : bool) (lines : list text) : bool :=
  fold_left flag_step lines b.

(** [in_import_block] after the lines [pre], counted from the top. *)
Definition block_flag (pre : list text) : bool := flag_from false pre.

(** With [in_import_block = b], the loop inserts at [line]. *)
Definition hit (b : bool) (line : text) : bool :=
  negb (contains open_marker line) && b
  && (contains core_anchor line || contains helm_anchor line).

(** The loop inserts at none of [lines], entered with [in_import_block = b]. *)
Fixpoint no_hit (b : bool) (lines : list text) : bool :=
  match lines with
  | [] => true
  | l :: ls => negb (hit b l) && no_hit (flag_step b l) ls
  end.

(** [line], met after the lines [pre], is the first line that the loop
    reaches with the flag on, that does not itself contain [import (] and
    that names an anchor. *)
Definition first_anchor (pre : list text) (line : text) : Prop :=
  no_hit false pre = true /\ hit (block_flag pre) line = true.

(** Where the fixed line goes relative to the anchor line. *)
Definition insert_at (pre : list text) (line : text) (post : list text)
  : list text :=
  if contains core_anchor line then pre ++ line :: fusion_line :: post
  else pre ++ fusion_line :: line :: post.

(** A line that does not end an import block. *)
Definition keeps_block (line : text) : Prop :=
  contains close_marker line = false.

(** ** Sample inputs *)

(** A blank import [_ Q path Q] on a line of its own, indented by a tab. *)
Definition entry (path : string) : text :=
  TAB :: lit "_ " ++ QUOTE :: lit path ++ [QUOTE].

(** An import block with neither anchor. *)
Definition no_anchor_text : text :=
  join [NL]
    [ lit "package mcp"; [];
      lit "import (";
      entry "github.com/containers/kubernetes-mcp-server/pkg/toolsets/config";
      lit ")"; [] ].

(** An import block in the usual order. *)
Definition sorted_text : text :=
  join [NL]
    [ lit "package mcp"; [];
      lit "import (";
      entry "github.com/containers/kubernetes-mcp-server/pkg/toolsets/config";
      entry "github.com/containers/kubernetes-mcp-server/pkg/toolsets/core";
      entry "github.com/containers/kubernetes-mcp-server/pkg/toolsets/helm";
      lit ")"; [] ].

(** An import block whose [helm] entry comes before its [core] entry. *)
Definition helm_first_text : text :=
  join [NL]
    [ lit "package mcp"; [];
      lit "import (";
      entry "github.com/containers/kubernetes-mcp-server/pkg/toolsets/helm";
      entry "github.com/containers/kubernetes-mcp-server/pkg/toolsets/core";
      lit ")"; [] ].

(** An import block that is opened and never closed. *)
Definition unclosed_text : text :=
  join [NL]
    [ lit "package mcp"; [];
      lit "import (";
      entry "github.com/containers/kubernetes-mcp-server/pkg/toolsets/core";
      [] ].

(** A file that only mentions the three markers in a comment. *)
Definition comment_text : text :=
  join [NL]
    [ lit "package toolsets"; [];
      lit "// TODO: registerFusionTools and SetFusionRegistration for pkg/toolsets/fusion";
      [] ].

(** A concrete environment: the working tree is an association list from
    paths to texts, and every command answers from a fixed table and
    leaves the tree alone. *)
Fixpoint lookup (p : text) (files : list (text * text)) : option text :=
  match files with
  | [] => None
  | (q, s) :: files' => if text_eqb p q then Some s else lookup p files'
  end.

Definition sim_env (answers : text -> Z * text) : env :=
  {| World := list (text * text);
     exec := fun cmd w => (fst (answers cmd), snd (answers cmd), w);
     path_exists := fun p w =>
       match lookup p w with Some _ => true | None => false end;
     read_text := lookup;
     write_text := fun p s w => (true, (p, s) :: w) |}.

(** Every command succeeds and prints nothing but the two remotes. *)
Definition all_ok (cmd : text) : Z * text :=
  if text_eqb cmd cmd_remote_v then
    (0%Z,
     join [NL]
       [ lit "origin  https://github.com/sandeepbazar/ibm-fusion-mcp-server.git (fetch)";
         lit "upstream  https://github.com/containers/kubernetes-mcp-server.git (fetch)";
         [] ])
  else (0%Z, []).

Definition start (E : env) (w : World E) : state E :=
  {| world := w; trace := [] |}.

(** ** Reading a run *)

(** The state after a patch function has found and read its file, and
    after it has found the file missing. *)
Definition seen (E : env) (st : state E) (p : text) : state E :=
  log (log st (world st) (EvExists p true)) (world st) (EvRead p).

Definition missing (E : env) (st : state E) (p : text) : state E :=
  log st (world st) (EvExists p false).


(** [st'] continues [st] with the events [evs]. *)
Definition extends (E : env) (st st' : state E) (evs : list event) : Prop :=
  trace st' = trace st ++ evs.

(** Every [SystemExit] leaving [m] carries [code]. *)
Definition exits_with (E : env) (A : Type) (code : Z) (m : M E A) : Prop :=
  forall st c st', m st = (Exit c, st') -> c = code.


(** All seven stages of [main] return success, one after the other. *)
Definition all_stages_ok (E : env) (argv : list text) (st st' : state E)
  : Prop :=
  exists st1 st2 st3 st4 st5 st6,
    check_git_clean (existsb (text_eqb (lit "--force")) argv) st
    = (Ret true, st1)
    /\ check_remotes st1 = (Ret true, st2)
    /\ sync_upstream st2 = (Ret tt, st3)
    /\ apply_toolsets_patch st3 = (Ret true, st4)
    /\ apply_modules_patch st4 = (Ret true, st5)
    /\ run_tests st5 = (Ret true, st6)
    /\ commit_and_push st6 = (Ret true, st').

(** [main], started in [st0], calls [apply_toolsets_patch] in [st]. *)
Definition reaches_toolsets (E : env) (argv : list text) (st0 st : state E)
  : Prop :=
  exists st1 st2,
    check_git_clean (existsb (text_eqb (lit "--force")) argv) st0
    = (Ret true, st1)
    /\ check_remotes st1 = (Ret true, st2)
    /\ sync_upstream st2 = (Ret tt, st).

(** [main], started in [st0], calls [apply_modules_patch] in [st]. *)
Definition reaches_modules (E : env) (argv : list text) (st0 st : state E)
  : Prop :=
  exists st3,
    reaches_toolsets argv st0 st3
    /\ apply_toolsets_patch st3 = (Ret true, st).

(** ** Reading the stages *)

(** Lines 97-98 of [check_remotes]. *)
Definition has_origin (remotes : text) : bool :=
  contains (lit "origin") remotes
  && contains (lit "sandeepbazar/ibm-fusion-mcp-server") remotes.

Definition has_upstream (remotes : text) : bool :=
  contains (lit "upstream") remotes
  && contains (lit "containers/kubernetes-mcp-server") remotes.

(** An event that runs one of the commands [cs]. *)
Definition only_cmds (cs : list text) (e : event) : Prop :=
  match e with
  | EvRun c _ => In c cs
  | EvExists _ _ | EvRead _ | EvWrite _ _ => False
  end.

(** An event that looks up, reads or writes the file [p]. *)
Definition only_path (p : text) (e : event) : Prop :=
  match e with
  | EvRun _ _ => False
  | EvExists q _ | EvRead q | EvWrite q _ => q = p
  end.

(** The commands [main] can run, and what it can touch. *)
Definition main_cmds : list text :=
  [ cmd_status; cmd_remote_v; cmd_remote_add; cmd_fetch; cmd_checkout;
    cmd_merge; cmd_test; cmd_add; cmd_commit; cmd_push ].

Definition main_event (e : event) : Prop :=
  only_cmds main_cmds e \/ only_path toolsets_path e
  \/ only_path modules_path e.

(** The lines of a text that hold the marker of RULE_B. *)
Definition marker_lines (content : text) : list text :=
  filter (contains fusion_marker) (split NL content).

(** An import block opened without a space before the parenthesis. *)
Definition tight_import_text : text :=
  join [NL]
    [ lit "package mcp"; [];
      lit "import(";
      entry "github.com/containers/kubernetes-mcp-server/pkg/toolsets/core";
      lit ")"; [] ].

(** A file with one of the two markers of RULE_A. *)
Definition half_hook_text : text :=
  join [NL]
    [ lit "package toolsets"; [];
      lit "var registerFusionTools = func() {}"; [] ].

(** Whatever [m] does and however it ends, the events it adds all
    satisfy [Q]. *)
Definition emits_only (E : env) (A : Type) (Q : event -> Prop) (m : M E A)
  : Prop :=
  forall st r st',
    m st = (r, st') -> exists evs, extends st st' evs /\ Forall Q evs.

(** What a patch function on the path [p] with the rule [rule] can do from
    [st]: find the file missing; look it up and read it and write nothing
    (the read raised, or the rule answered without a new text); or, on
    top of that, call [write_text] once with the text the rule computes
    from the text read, and return [True] if the write went through and
    raise if it did not.  Only in the last case can the environment
    differ afterwards: it is the one the write left. *)
Definition patch_shape (E : env) (p : text) (rule : text -> outcome)
           (st : state E) (r : res bool) (st' : state E) : Prop :=
  exists evs,
    extends st st' evs
    /\ ((path_exists E p (world st) = false
         /\ evs = [EvExists p false]
         /\ r = Ret false /\ world st' = world st)
        \/ (path_exists E p (world st) = true
            /\ evs = [EvExists p true; EvRead p]
            /\ world st' = world st
            /\ (read_text E p (world st) = None /\ r = Raise OtherError
                \/ exists content,
                     read_text E p (world st) = Some content
                     /\ (rule content = AlreadyPresent /\ r = Ret true
                         \/ rule content = NotFound /\ r = Ret false)))
        \/ (exists content c ok,
               path_exists E p (world st) = true
               /\ read_text E p (world st) = Some content
               /\ rule content = Applied c
               /\ write_text E p c (world st) = (ok, world st')
               /\ evs = [EvExists p true; EvRead p; EvWrite p c]
               /\ r = (if ok then Ret true else Raise OtherError))).

(** The events of a run of [main], stage by stage: [e1] from the tree
    check, [e2] from the remotes check, [e3] from the sync, [e4] and [e5]
    from the two patch functions, [e6] from the tests and [e7] from commit
    and push.  A stage that was not reached has no events; a stage is
    reached only when the one before it succeeded. *)
Definition stage_events (e1 e2 e3 e4 e5 e6 e7 : list event) : Prop :=
  Forall (only_cmds [cmd_status]) e1
  /\ Forall (only_cmds [cmd_remote_v; cmd_remote_add]) e2
  /\ Forall (only_cmds [cmd_fetch; cmd_checkout; cmd_merge]) e3
  /\ Forall (only_path toolsets_path) e4
  /\ Forall (only_path modules_path) e5
  /\ Forall (only_cmds [cmd_test]) e6
  /\ Forall (only_cmds [cmd_status; cmd_add; cmd_commit; cmd_push]) e7
  /\ (e4 = [] \/ In (EvRun cmd_merge 0%Z) e3)
  /\ (e5 = [] \/ In (EvExists toolsets_path true) e4)
  /\ (e6 = [] \/ In (EvExists modules_path true) e5)
  /\ (e7 = [] \/ In (EvRun cmd_test 0%Z) e6)
  /\ (forall a b rc,
         e7 = a ++ EvRun cmd_push rc :: b -> In (EvRun cmd_commit 0%Z) a).

(** Environments for the two precondition failures: a tree with a
    modified file, and remotes without the fork. *)
Definition dirty_answers (cmd : text) : Z * text :=
  if text_eqb cmd cmd_status then
    (0%Z, join [NL] [lit " M pkg/mcp/modules.go"; []])
  else all_ok cmd.

Definition no_origin_answers (cmd : text) : Z * text :=
  if text_eqb cmd cmd_remote_v then
    (0%Z,
     join [NL]
       [ lit "upstream  https://github.com/containers/kubernetes-mcp-server.git (fetch)";
         [] ])
  else all_ok cmd.

(** The text in the file after the call differs from the text before
    it. *)
Definition altered (content : text) (o : outcome) : bool :=
  negb (text_eqb (result content o) content).

(** ** Reading the exit code

    What each stage of [main] needs from the environment to let the next
    one run, said without the stage functions: [w] is the environment the
    stage starts in and [w'] the one it leaves. *)











(** An environment like [sim_env] in which every write raises after the
    file was opened, which leaves the file empty. *)
Definition full_disk_env (answers : text -> Z * text) : env :=
  {| World := list (text * text);
     exec := fun cmd w => (fst (answers cmd), snd (answers cmd), w);
     path_exists := fun p w =>
       match lookup p w with Some _ => true | None => false end;
     read_text := lookup;
     write_text := fun p s w => (false, (p, []) :: w) |}.

(** * Properties *)

(** ** Facts about the string operations *)

Lemma startswith_app (p s : text) : startswith p (p ++ s) = true.
Proof.
  induction p as [|a p IH]; simpl.
  - reflexivity.
  - rewrite N.eqb_refl. exact IH.
Qed.

Lemma startswith_spec (p s : text) :
  startswith p s = true <-> exists t, s = p ++ t.
Proof.
  split.
  - revert s. induction p as [|a p IH]; intros s H.
    + exists s. reflexivity.
    + destruct s as [|b s]; simpl in H; [discriminate|].
      apply andb_true_iff in H. destruct H as [Hab H].
      apply N.eqb_eq in Hab. subst b.
      destruct (IH _ H) as [t ->]. exists t. reflexivity.
  - intros [t ->]. apply startswith_app.
Qed.

Lemma contains_startswith (sub s : text) :
  startswith sub s = true -> contains sub s = true.
Proof.
  intros H. destruct s; simpl; rewrite H; reflexivity.
Qed.

Lemma contains_spec (sub s : text) :
  contains sub s = true <-> exists a b, s = a ++ sub ++ b.
Proof.
  split.
  - induction s as [|c s IH]; simpl; intros H.
    + rewrite orb_false_r in H. apply startswith_spec in H.
      destruct H as [t ->]. exists [], t. reflexivity.
    + apply orb_true_iff in H. destruct H as [H|H].
      * apply startswith_spec in H. destruct H as [t ->].
        exists [], t. reflexivity.
      * destruct (IH H) as (a & b & ->). exists (c :: a), b. reflexivity.
  - intros (a & b & ->). induction a as [|c a IH].
    + rewrite app_nil_l. apply contains_startswith, startswith_app.
    + simpl. rewrite IH. apply orb_true_r.
Qed.

Lemma contains_app_l (sub s t : text) :
  contains sub s = true -> contains sub (s ++ t) = true.
Proof.
  rewrite !contains_spec. intros (a & b & ->).
  exists a, (b ++ t). now rewrite <- !app_assoc.
Qed.

Lemma contains_app_r (sub s t : text) :
  contains sub t = true -> contains sub (s ++ t) = true.
Proof.
  rewrite !contains_spec. intros (a & b & ->).
  exists (s ++ a), b. now rewrite <- !app_assoc.
Qed.

Lemma endswith_spec (s suffix : text) :
  endswith s suffix = true <-> exists a, s = a ++ suffix.
Proof.
  unfold endswith. rewrite startswith_spec. split.
  - intros [t H]. exists (rev t).
    rewrite <- (rev_involutive s), H, rev_app_distr, rev_involutive.
    reflexivity.
  - intros [a ->]. exists (rev a). apply rev_app_distr.
Qed.

Lemma split_nonempty (sep : char) (s : text) : split sep s <> [].
Proof.
  destruct s as [|c s]; simpl; [discriminate|].
  destruct (c =? sep)%N; [discriminate|].
  destruct (split sep s); discriminate.
Qed.

(** [sep.join(s.split(sep)) == s] *)
Lemma join_split (sep : char) (s : text) : join [sep] (split sep s) = s.
Proof.
  induction s as [|c s IH]; simpl.
  - reflexivity.
  - destruct (N.eqb_spec c sep) as [->|Hne].
    + pose proof (split_nonempty sep s) as Hn.
      simpl. destruct (split sep s) as [|l ls]; [contradiction|].
      simpl in *. rewrite IH. reflexivity.
    + pose proof (split_nonempty sep s) as Hn.
      destruct (split sep s) as [|l ls]; [contradiction|].
      simpl in *. destruct ls; rewrite <- IH; reflexivity.
Qed.

Lemma split_cons_eq (sep c : char) (s : text) :
  c <> sep ->
  exists l ls, split sep s = l :: ls /\ split sep (c :: s) = (c :: l) :: ls.
Proof.
  intros Hne. simpl. apply N.eqb_neq in Hne. rewrite Hne.
  pose proof (split_nonempty sep s) as Hn.
  destruct (split sep s) as [|l ls]; [contradiction|].
  exists l, ls. split; reflexivity.
Qed.

(** No line of [s.split(sep)] contains the separator. *)
Lemma split_no_sep (sep : char) (s : text) :
  Forall (fun l => ~ In sep l) (split sep s).
Proof.
  induction s as [|c s IH]; simpl.
  - constructor; [intros []|constructor].
  - destruct (N.eqb_spec c sep) as [->|Hne].
    + constructor; [intros []|exact IH].
    + destruct (split sep s) as [|l ls].
      * constructor; [|constructor]. intros [H|[]]. congruence.
      * inversion IH as [|? ? Hl Hls]; subst.
        constructor; [|exact Hls].
        intros [H|H]; [congruence|contradiction].
Qed.

Lemma split_app_no_sep (sep : char) (l s : text) :
  ~ In sep l ->
  split sep (l ++ sep :: s) = l :: split sep s.
Proof.
  induction l as [|c l IH]; intros Hl; simpl.
  - rewrite N.eqb_refl. reflexivity.
  - destruct (N.eqb_spec c sep) as [->|Hne].
    + exfalso. apply Hl. left. reflexivity.
    + rewrite IH; [reflexivity|]. intros H. apply Hl. right. exact H.
Qed.

Lemma split_single (sep : char) (l : text) :
  ~ In sep l -> split sep l = [l].
Proof.
  induction l as [|c l IH]; intros Hl; simpl.
  - reflexivity.
  - destruct (N.eqb_spec c sep) as [->|Hne].
    + exfalso. apply Hl. left. reflexivity.
    + rewrite IH; [reflexivity|]. intros H. apply Hl. right. exact H.
Qed.

(** [sep.join(ls).split(sep) == ls] for lines without the separator. *)
Lemma split_join (sep : char) (ls : list text) :
  ls <> [] ->
  Forall (fun l => ~ In sep l) ls ->
  split sep (join [sep] ls) = ls.
Proof.
  induction ls as [|l ls IH]; intros Hne Hall; [contradiction|].
  inversion Hall as [|? ? Hl Hls]; subst.
  destruct ls as [|l' ls].
  - simpl. apply split_single. exact Hl.
  - change (join [sep] (l :: l' :: ls))
      with (l ++ [sep] ++ join [sep] (l' :: ls)).
    change ([sep] ++ join [sep] (l' :: ls))
      with (sep :: join [sep] (l' :: ls)).
    rewrite split_app_no_sep by exact Hl.
    f_equal. apply IH; [discriminate|exact Hls].
Qed.

Lemma join_app_length (sep : text) (l : text) (ls : list text) :
  ls <> [] ->
  List.length (join sep (l :: ls))
  = List.length l + List.length sep + List.length (join sep ls).
Proof.
  intros Hne. destruct ls as [|l' ls]; [contradiction|].
  change (join sep (l :: l' :: ls)) with (l ++ sep ++ join sep (l' :: ls)).
  rewrite !length_app. lia.
Qed.

(** ** White space and equality of texts *)

Lemma dropwhile_nil_iff (f : char -> bool) (s : text) :
  dropwhile f s = [] <-> forallb f s = true.
Proof.
  induction s as [|c s IH]; simpl.
  - split; reflexivity.
  - destruct (f c); simpl; [exact IH | split; discriminate].
Qed.

Lemma dropwhile_head (f : char -> bool) (s : text) (c : char) (t : text) :
  dropwhile f s = c :: t -> f c = false.
Proof.
  induction s as [|a s IH]; simpl; [discriminate|].
  destruct (f a) eqn:Ha; [exact IH|].
  intros H. injection H as <- _. exact Ha.
Qed.

Lemma forallb_rev (f : char -> bool) (s : text) :
  forallb f (rev s) = forallb f s.
Proof.
  destruct (forallb f s) eqn:H.
  - rewrite forallb_forall in *. intros x Hx. apply H, in_rev, Hx.
  - destruct (forallb f (rev s)) eqn:Hr; [|reflexivity].
    rewrite forallb_forall in Hr.
    assert (Hs : forallb f s = true).
    { apply forallb_forall. intros x Hx. apply Hr. rewrite <- in_rev. exact Hx. }
    congruence.
Qed.

(** [s.strip()] is empty exactly when [s] is white space only. *)
Lemma strip_blank (s : text) : truthy (strip s) = negb (forallb isspace s).
Proof.
  unfold strip, lstrip, rstrip.
  destruct (forallb isspace s) eqn:Hs; simpl.
  - rewrite <- forallb_rev in Hs. apply dropwhile_nil_iff in Hs.
    rewrite Hs. reflexivity.
  - destruct (dropwhile isspace (rev s)) as [|c t] eqn:Hd.
    + apply dropwhile_nil_iff in Hd. rewrite forallb_rev in Hd. congruence.
    + pose proof (dropwhile_head _ _ Hd) as Hc.
      destruct (dropwhile isspace (rev (c :: t))) as [|c' t'] eqn:Hd2;
        [|reflexivity].
      apply dropwhile_nil_iff in Hd2. rewrite forallb_rev in Hd2.
      simpl in Hd2. rewrite Hc in Hd2. discriminate.
Qed.

Lemma text_eqb_spec (a b : text) : text_eqb a b = true <-> a = b.
Proof.
  revert b. induction a as [|x a IH]; intros [|y b]; simpl;
    try (split; [discriminate | discriminate]);
    try (split; reflexivity).
  rewrite andb_true_iff, N.eqb_eq, IH. split.
  - intros [-> ->]. reflexivity.
  - intros H. injection H as -> ->. split; reflexivity.
Qed.

Lemma force_in_argv (argv : list text) :
  existsb (text_eqb (lit "--force")) argv = true <->
  In (lit "--force") argv.
Proof.
  rewrite existsb_exists. split.
  - intros (x & Hin & Hx). apply text_eqb_spec in Hx. subst x. exact Hin.
  - intros Hin. exists (lit "--force"). split; [exact Hin|].
    apply text_eqb_spec. reflexivity.
Qed.

(** ** The matcher decides the language of a pattern *)

Section ReFacts.
Import Re.

Lemma lang_void_inv (s : text) : lang Void s -> False.
Proof. intros H. inversion H. Qed.

Lemma lang_eps_inv (s : text) : lang Eps s -> s = [].
Proof. intros H. inversion H. reflexivity. Qed.

Lemma lang_class_inv (f : char -> bool) (s : text) :
  lang (Class f) s -> exists c, s = [c] /\ f c = true.
Proof. intros H. inversion H; subst. eauto. Qed.

Lemma lang_cat_inv (r1 r2 : re) (s : text) :
  lang (Cat r1 r2) s ->
  exists s1 s2, s = s1 ++ s2 /\ lang r1 s1 /\ lang r2 s2.
Proof. intros H. inversion H; subst. eauto. Qed.

Lemma lang_alt_inv (r1 r2 : re) (s : text) :
  lang (Alt r1 r2) s -> lang r1 s \/ lang r2 s.
Proof. intros H. inversion H; subst; auto. Qed.

Lemma lang_nil_nullable (r : re) (s : text) :
  lang r s -> s = [] -> nullable r = true.
Proof.
  induction 1 as [ | f c Hf | r1 r2 s1 s2 H1 IH1 H2 IH2
                 | r1 r2 s H1 IH1 | r1 r2 s H2 IH2 | r | r s1 s2 H1 IH1 H2 IH2 ];
    intros Hs; simpl; try reflexivity.
  - discriminate.
  - apply app_eq_nil in Hs. destruct Hs as [-> ->].
    rewrite IH1, IH2; reflexivity.
  - rewrite IH1; [reflexivity | exact Hs].
  - rewrite IH2; [apply orb_true_r | exact Hs].
Qed.

Lemma nullable_spec (r : re) : nullable r = true <-> lang r [].
Proof.
  split.
  - induction r as [ | | f | r1 IH1 r2 IH2 | r1 IH1 r2 IH2 | r1 IH1 ];
      simpl; intros H; try discriminate.
    + constructor.
    + apply andb_true_iff in H. destruct H as [H1 H2].
      change (@nil char) with (@nil char ++ []).
      constructor; auto.
    + apply orb_true_iff in H. destruct H as [H|H].
      * apply LAltL; auto.
      * apply LAltR; auto.
    + constructor.
  - intros H. eapply lang_nil_nullable; [exact H | reflexivity].
Qed.

Lemma lang_cat_cons (r1 r2 : re) (c : char) (s : text) :
  lang (Cat r1 r2) (c :: s) ->
  (exists s1 s2, s = s1 ++ s2 /\ lang r1 (c :: s1) /\ lang r2 s2)
  \/ (lang r1 [] /\ lang r2 (c :: s)).
Proof.
  intros H. apply lang_cat_inv in H. destruct H as (s1 & s2 & Hs & H1 & H2).
  destruct s1 as [|c1 s1]; simpl in Hs.
  - right. subst s2. split; assumption.
  - left. injection Hs as <- ->.
    exists s1, s2. repeat split; assumption.
Qed.

Lemma lang_star_cons (r : re) (c : char) (s : text) :
  lang (Star r) (c :: s) ->
  exists s1 s2, s = s1 ++ s2 /\ lang r (c :: s1) /\ lang (Star r) s2.
Proof.
  intros H. remember (Star r) as r' eqn:Er. remember (c :: s) as t eqn:Et.
  revert r c s Er Et.
  induction H as [ | f c' Hf | r1 r2 s1 s2 H1 IH1 H2 IH2
                 | r1 r2 s' H1 IH1 | r1 r2 s' H2 IH2 | r0
                 | r0 s1 s2 H1 IH1 H2 IH2 ];
    intros r c s Er Et; try discriminate.
  injection Er as ->.
  destruct s1 as [|c1 s1].
  - simpl in Et. apply IH2; [reflexivity | exact Et].
  - simpl in Et. injection Et as -> <-.
    exists s1, s2. split; [reflexivity | split; assumption].
Qed.

Lemma deriv_sound (c : char) (r : re) (s : text) :
  lang (deriv c r) s -> lang r (c :: s).
Proof.
  revert s.
  induction r as [ | | f | r1 IH1 r2 IH2 | r1 IH1 r2 IH2 | r1 IH1 ];
    simpl; intros s H.
  - destruct (lang_void_inv H).
  - destruct (lang_void_inv H).
  - destruct (f c) eqn:Hf.
    + apply lang_eps_inv in H. subst s. constructor. exact Hf.
    + destruct (lang_void_inv H).
  - assert (Hcat : forall t, lang (Cat (deriv c r1) r2) t ->
                             lang (Cat r1 r2) (c :: t)).
    { intros t Ht. apply lang_cat_inv in Ht.
      destruct Ht as (s1 & s2 & -> & H1 & H2).
      change (c :: s1 ++ s2) with ((c :: s1) ++ s2).
      constructor; auto. }
    destruct (nullable r1) eqn:Hn.
    + apply lang_alt_inv in H. destruct H as [H|H].
      * apply Hcat. exact H.
      * change (c :: s) with ([] ++ c :: s).
        constructor; [apply nullable_spec; exact Hn | auto].
    + apply Hcat. exact H.
  - apply lang_alt_inv in H. destruct H as [H|H].
    + apply LAltL; auto.
    + apply LAltR; auto.
  - apply lang_cat_inv in H. destruct H as (s1 & s2 & -> & H1 & H2).
    change (c :: s1 ++ s2) with ((c :: s1) ++ s2).
    constructor; auto.
Qed.

Lemma deriv_complete (c : char) (r : re) (s : text) :
  lang r (c :: s) -> lang (deriv c r) s.
Proof.
  revert s.
  induction r as [ | | f | r1 IH1 r2 IH2 | r1 IH1 r2 IH2 | r1 IH1 ];
    simpl; intros s H.
  - destruct (lang_void_inv H).
  - apply lang_eps_inv in H. discriminate.
  - apply lang_class_inv in H. destruct H as (c' & Hs & Hf).
    injection Hs as <- ->. rewrite Hf. constructor.
  - apply lang_cat_cons in H.
    destruct H as [(s1 & s2 & -> & H1 & H2) | [H1 H2]].
    + assert (Hc : lang (Cat (deriv c r1) r2) (s1 ++ s2))
        by (constructor; auto).
      destruct (nullable r1); [apply LAltL|]; exact Hc.
    + apply nullable_spec in H1. rewrite H1. apply LAltR; auto.
  - apply lang_alt_inv in H. destruct H as [H|H].
    + apply LAltL; auto.
    + apply LAltR; auto.
  - apply lang_star_cons in H. destruct H as (s1 & s2 & -> & H1 & H2).
    constructor; auto.
Qed.

(** [match_prefix] succeeds exactly when a prefix is in the language. *)
Lemma match_prefix_spec (r : re) (s : text) :
  match_prefix r s = true <-> exists p q, s = p ++ q /\ lang r p.
Proof.
  revert r. induction s as [|c s IH]; intros r; simpl.
  - rewrite orb_false_r, nullable_spec. split.
    + intros H. exists [], []. split; [reflexivity | exact H].
    + intros (p & q & Hs & H). symmetry in Hs.
      apply app_eq_nil in Hs. destruct Hs as [-> _]. exact H.
  - rewrite orb_true_iff, nullable_spec, IH. split.
    + intros [H | (p & q & -> & H)].
      * exists [], (c :: s). split; [reflexivity | exact H].
      * exists (c :: p), q. split; [reflexivity | apply deriv_sound; exact H].
    + intros (p & q & Hs & H). destruct p as [|c' p].
      * left. exact H.
      * simpl in Hs. injection Hs as <- ->. right.
        exists p, q. split; [reflexivity | apply deriv_complete; exact H].
Qed.

(** [search] succeeds exactly when a substring is in the language. *)
Lemma search_spec (r : re) (s : text) :
  search r s = true <-> exists a p b, s = a ++ p ++ b /\ lang r p.
Proof.
  induction s as [|c s IH]; cbn [search].
  - rewrite orb_false_r, match_prefix_spec. split.
    + intros (p & q & Hs & H). exists [], p, q. split; assumption.
    + intros (a & p & b & Hs & H). symmetry in Hs.
      apply app_eq_nil in Hs. destruct Hs as [-> Hs].
      apply app_eq_nil in Hs. destruct Hs as [-> ->].
      exists [], []. split; [reflexivity | exact H].
  - rewrite orb_true_iff, match_prefix_spec, IH. split.
    + intros [(p & q & Hs & H) | (a & p & b & -> & H)].
      * exists [], p, q. split; assumption.
      * exists (c :: a), p, b. split; [reflexivity | exact H].
    + intros (a & p & b & Hs & H). destruct a as [|c' a].
      * left. exists p, b. split; assumption.
      * simpl in Hs. injection Hs as <- ->. right.
        exists a, p, b. split; [reflexivity | exact H].
Qed.

End ReFacts.

(** ** The language of [import_pattern] *)

Section PatternFacts.
Import Re.

Lemma lang_chr (c : char) (s : text) : lang (Chr c) s <-> s = [c].
Proof.
  unfold Chr. split.
  - intros H. apply lang_class_inv in H. destruct H as (c' & -> & Hc).
    apply N.eqb_eq in Hc. subst. reflexivity.
  - intros ->. constructor. apply N.eqb_refl.
Qed.

Lemma lang_lit (t s : text) : lang (Lit t) s <-> s = t.
Proof.
  revert s. induction t as [|c t IH]; intros s; simpl.
  - split; [apply lang_eps_inv | intros ->; constructor].
  - split.
    + intros H. apply lang_cat_inv in H.
      destruct H as (s1 & s2 & -> & H1 & H2).
      apply lang_chr in H1. apply IH in H2. subst. reflexivity.
    + intros ->. change (c :: t) with ([c] ++ t).
      constructor; [apply lang_chr | apply IH]; reflexivity.
Qed.

Lemma lang_star_class_forallb (f : char -> bool) (r : re) (s : text) :
  lang r s -> r = Star (Class f) -> forallb f s = true.
Proof.
  induction 1 as [ | g c Hg | r1 r2 s1 s2 H1 IH1 H2 IH2
                 | r1 r2 s H1 IH1 | r1 r2 s H2 IH2 | r0
                 | r0 s1 s2 H1 IH1 H2 IH2 ];
    intros Er; try discriminate.
  - reflexivity.
  - injection Er as ->. apply lang_class_inv in H1.
    destruct H1 as (c & -> & Hc). simpl. rewrite Hc. auto.
Qed.

Lemma lang_star_class (f : char -> bool) (s : text) :
  lang (Star (Class f)) s <-> forallb f s = true.
Proof.
  split.
  - intros H. eapply lang_star_class_forallb; [exact H | reflexivity].
  - induction s as [|c s IH]; simpl; intros H.
    + constructor.
    + apply andb_true_iff in H. destruct H as [Hc Hs].
      change (c :: s) with ([c] ++ s).
      constructor; [constructor; exact Hc | auto].
Qed.

Lemma lang_plus_class (f : char -> bool) (s : text) :
  lang (Plus (Class f)) s <-> s <> [] /\ forallb f s = true.
Proof.
  unfold Plus. split.
  - intros H. apply lang_cat_inv in H.
    destruct H as (s1 & s2 & -> & H1 & H2).
    apply lang_class_inv in H1. destruct H1 as (c & -> & Hc).
    apply lang_star_class in H2. simpl. rewrite Hc, H2.
    split; [discriminate | reflexivity].
  - intros [Hne H]. destruct s as [|c s]; [contradiction|].
    simpl in H. apply andb_true_iff in H. destruct H as [Hc Hs].
    change (c :: s) with ([c] ++ s).
    constructor; [constructor; exact Hc | apply lang_star_class; exact Hs].
Qed.

Lemma lang_seq_cons (r : re) (rs : list re) (s : text) :
  lang (Seq (r :: rs)) s <->
  exists s1 s2, s = s1 ++ s2 /\ lang r s1 /\ lang (Seq rs) s2.
Proof.
  simpl. split.
  - apply lang_cat_inv.
  - intros (s1 & s2 & -> & H1 & H2). constructor; assumption.
Qed.

Lemma forallb_notquote (s : text) :
  forallb (fun c => negb (c =? QUOTE)%N) s = true <-> ~ In QUOTE s.
Proof.
  rewrite forallb_forall. split.
  - intros H Hin. specialize (H _ Hin). rewrite N.eqb_refl in H. discriminate.
  - intros H c Hc. apply negb_true_iff, N.eqb_neq. intros ->. auto.
Qed.

(** The pattern matches exactly the texts [import_block_start] describes. *)
Lemma import_pattern_spec (p : text) :
  lang import_pattern p <-> import_block_start p.
Proof.
  unfold import_pattern, import_block_start, all_space, ws, notquote. split.
  - intros H.
    repeat (apply lang_seq_cons in H;
            let s1 := fresh "s" in let H1 := fresh "H" in
            destruct H as (s1 & ? & -> & H1 & H)).
    simpl in H. apply lang_eps_inv in H. subst.
    repeat match goal with
           | H : lang (Lit _) _ |- _ => apply lang_lit in H; subst
           | H : lang (Chr _) _ |- _ => apply lang_chr in H; subst
           | H : lang (Star (Class _)) _ |- _ => apply lang_star_class in H
           | H : lang (Plus (Class _)) _ |- _ => apply lang_plus_class in H;
                                                 destruct H as [? H]
           end.
    match goal with
    | Hq : forallb (fun c => negb (c =? QUOTE)%N) _ = true |- _ =>
        apply forallb_notquote in Hq
    end.
    do 6 eexists. repeat split. all: assumption.
  - intros (w1 & w2 & w3 & w4 & path & w5 & H1 & H2 & H3 & H4 & H5
            & Hne & Hq & ->).
    repeat (apply lang_seq_cons; eexists; eexists;
            split; [reflexivity | split]);
      try (apply lang_lit; reflexivity);
      try (apply lang_chr; reflexivity);
      try (apply lang_star_class; eassumption).
    + apply lang_plus_class. split; [exact Hne|].
      apply forallb_notquote. exact Hq.
    + rewrite <- (app_nil_r [NL]).
      apply lang_seq_cons. exists [NL], []. split; [reflexivity|].
      split; [apply lang_chr; reflexivity | constructor].
Qed.

(** [re.search(import_pattern, content)] finds a match exactly when the
    text has an [import_block_start] somewhere. *)
Lemma search_import_pattern (content : text) :
  search import_pattern content = true <->
  exists a p b, content = a ++ p ++ b /\ import_block_start p.
Proof.
  rewrite search_spec. split; intros (a & p & b & Hc & H);
    exists a, p, b; (split; [exact Hc | apply import_pattern_spec; exact H]).
Qed.

End PatternFacts.

(** ** The loop of RULE_B *)

Lemma fusion_line_eq :
  fusion_line
  = entry "github.com/containers/kubernetes-mcp-server/pkg/toolsets/fusion".
Proof. vm_compute. reflexivity. Qed.

Lemma loop_body_added (st : loop_state) (line : text) :
  import_added st = true ->
  loop_body st line
  = {| new_lines := new_lines st ++ [line];
       import_added := true;
       in_import_block := flag_step (in_import_block st) line |}.
Proof.
  destruct st as [acc a b]. simpl. intros ->.
  unfold loop_body, loop_tail, flag_step. simpl.
  destruct (contains open_marker line); [reflexivity|].
  rewrite andb_false_r. reflexivity.
Qed.

(** Once the line is in, the rest of the lines is copied. *)
Lemma loop_added (ls : list text) (acc : list text) (b : bool) :
  fold_left loop_body ls (LoopState acc true b)
  = LoopState (acc ++ ls) true (flag_from b ls).
Proof.
  revert acc b. induction ls as [|l ls IH]; intros acc b; simpl.
  - rewrite app_nil_r. reflexivity.
  - rewrite loop_body_added by reflexivity. simpl.
    rewrite IH, <- app_assoc. reflexivity.
Qed.

Lemma loop_body_no_hit (acc : list text) (b : bool) (line : text) :
  hit b line = false ->
  loop_body (LoopState acc false b) line
  = LoopState (acc ++ [line]) false (flag_step b line).
Proof.
  unfold hit, loop_body, loop_tail, flag_step. simpl.
  destruct (contains open_marker line); simpl; [reflexivity|].
  destruct b; simpl.
  - intros H. apply orb_false_iff in H. destruct H as [-> ->]. reflexivity.
  - intros _. rewrite andb_false_r. reflexivity.
Qed.

Lemma loop_body_hit (acc : list text) (b : bool) (line : text) :
  hit b line = true ->
  loop_body (LoopState acc false b) line
  = LoopState (if contains core_anchor line
               then (acc ++ [line]) ++ [fusion_line]
               else (acc ++ [fusion_line]) ++ [line]) true b.
Proof.
  unfold hit, loop_body. simpl. intros H.
  apply andb_true_iff in H. destruct H as [H Hanchor].
  apply andb_true_iff in H. destruct H as [Hopen ->].
  apply negb_true_iff in Hopen. rewrite Hopen. simpl.
  destruct (contains core_anchor line); [reflexivity|].
  simpl in Hanchor. rewrite Hanchor. reflexivity.
Qed.

(** Before the first anchor line the lines are copied. *)
Lemma loop_no_hit (pre : list text) (acc : list text) (b : bool) :
  no_hit b pre = true ->
  fold_left loop_body pre (LoopState acc false b)
  = LoopState (acc ++ pre) false (flag_from b pre).
Proof.
  revert acc b. induction pre as [|l pre IH]; intros acc b H; simpl in *.
  - rewrite app_nil_r. reflexivity.
  - apply andb_true_iff in H. destruct H as [Hl Hpre].
    apply negb_true_iff in Hl.
    rewrite loop_body_no_hit by exact Hl.
    rewrite IH by exact Hpre. rewrite <- app_assoc. reflexivity.
Qed.

(** At the first anchor line the fixed line goes in, once. *)
Lemma loop_hit (pre : list text) (L : text) (post : list text) :
  first_anchor pre L ->
  modules_loop (pre ++ L :: post)
  = LoopState (insert_at pre L post) true
      (flag_from (block_flag pre) post).
Proof.
  intros [Hpre HL]. unfold modules_loop, loop_init.
  rewrite fold_left_app, loop_no_hit by exact Hpre. simpl.
  fold (block_flag pre). rewrite loop_body_hit by exact HL.
  rewrite loop_added. unfold insert_at.
  destruct (contains core_anchor L); rewrite <- !app_assoc; reflexivity.
Qed.

(** Either no line is an anchor line inside a block, or there is a first. *)
Lemma first_hit_exists (lines : list text) (b : bool) :
  no_hit b lines = true
  \/ exists pre L post,
       lines = pre ++ L :: post
       /\ no_hit b pre = true /\ hit (flag_from b pre) L = true.
Proof.
  revert b. induction lines as [|l lines IH]; intros b; simpl.
  - left. reflexivity.
  - destruct (hit b l) eqn:Hl; simpl.
    + right. exists [], l, lines. repeat split. exact Hl.
    + destruct (IH (flag_step b l)) as [H | (pre & L & post & -> & Hpre & HL)].
      * left. exact H.
      * right. exists (l :: pre), L, post. simpl. rewrite Hl. simpl.
        repeat split; assumption.
Qed.

(** What the loop builds. *)
Lemma modules_loop_spec (lines : list text) :
  (no_hit false lines = true
   /\ modules_loop lines = LoopState lines false (block_flag lines))
  \/ exists pre L post,
       lines = pre ++ L :: post
       /\ first_anchor pre L
       /\ modules_loop lines
          = LoopState (insert_at pre L post) true
              (flag_from (block_flag pre) post).
Proof.
  destruct (first_hit_exists lines false)
    as [H | (pre & L & post & -> & Hpre & HL)].
  - left. split; [exact H|].
    unfold modules_loop, loop_init. rewrite loop_no_hit by exact H.
    reflexivity.
  - right. exists pre, L, post. split; [reflexivity|].
    assert (Hf : first_anchor pre L) by (split; assumption).
    split; [exact Hf | apply loop_hit; exact Hf].
Qed.

(** The lines before an anchor line inside a block end with an opening
    line followed by lines that keep the block open. *)
Lemma flag_from_true (pre : list text) (b : bool) :
  flag_from b pre = true ->
  (b = true /\ Forall keeps_block pre)
  \/ exists before opener body,
       pre = before ++ opener :: body
       /\ contains open_marker opener = true
       /\ Forall keeps_block body.
Proof.
  revert b. induction pre as [|l pre IH]; intros b H.
  - left. split; [exact H | constructor].
  - unfold flag_from in H. simpl in H. fold (flag_from (flag_step b l) pre) in H.
    destruct (IH _ H) as [[Hb Hall] | (before & opener & body & -> & Ho & Hall)].
    + unfold flag_step in Hb.
      destruct (contains open_marker l) eqn:Hopen.
      * right. exists [], l, pre. repeat split; assumption.
      * destruct (contains close_marker l) eqn:Hclose; simpl in Hb.
        -- destruct b; [discriminate|discriminate].
        -- left. split; [exact Hb|].
           constructor; [exact Hclose | exact Hall].
    + right. exists (l :: before), opener, body. repeat split; assumption.
Qed.

Lemma block_flag_true (pre : list text) :
  block_flag pre = true ->
  exists before opener body,
    pre = before ++ opener :: body
    /\ contains open_marker opener = true
    /\ Forall keeps_block body.
Proof.
  intros H. apply flag_from_true in H.
  destruct H as [[Hb _] | H]; [discriminate | exact H].
Qed.

Lemma hit_in_block (b : bool) (line : text) : hit b line = true -> b = true.
Proof.
  unfold hit. intros H.
  apply andb_true_iff in H. destruct H as [H _].
  apply andb_true_iff in H. destruct H as [_ H]. exact H.
Qed.

(** ** Lines and markers *)

Lemma contains_join (sub sep : text) (l : text) (ls : list text) :
  In l ls -> contains sub l = true -> contains sub (join sep ls) = true.
Proof.
  intros Hin Hl. induction ls as [|l' ls IH]; [destruct Hin|].
  destruct ls as [|l'' ls].
  - destruct Hin as [->|[]]. exact Hl.
  - change (join sep (l' :: l'' :: ls))
      with (l' ++ sep ++ join sep (l'' :: ls)).
    destruct Hin as [->|Hin].
    + apply contains_app_l. exact Hl.
    + apply contains_app_r, contains_app_r, IH. exact Hin.
Qed.

Lemma fusion_line_marker : contains fusion_marker fusion_line = true.
Proof. vm_compute. reflexivity. Qed.

Lemma fusion_line_no_NL : ~ In NL fusion_line.
Proof.
  assert (H : forallb (fun c => negb (c =? NL)%N) fusion_line = true)
    by (vm_compute; reflexivity).
  rewrite forallb_forall in H. intros Hin.
  specialize (H _ Hin). rewrite N.eqb_refl in H. discriminate.
Qed.

Lemma In_insert_at (pre : list text) (L : text) (post : list text) :
  In fusion_line (insert_at pre L post).
Proof.
  unfold insert_at. destruct (contains core_anchor L);
    apply in_or_app; right; simpl; auto.
Qed.

Lemma insert_at_nonempty (pre : list text) (L : text) (post : list text) :
  insert_at pre L post <> [].
Proof.
  unfold insert_at. destruct (contains core_anchor L); intros H;
    apply app_eq_nil in H; destruct H as [_ H]; discriminate.
Qed.

Lemma insert_at_no_NL (pre : list text) (L : text) (post : list text) :
  Forall (fun l => ~ In NL l) (pre ++ L :: post) ->
  Forall (fun l => ~ In NL l) (insert_at pre L post).
Proof.
  intros H. apply Forall_app in H. destruct H as [Hpre HLpost].
  inversion HLpost as [|? ? HL Hpost]; subst.
  unfold insert_at. destruct (contains core_anchor L);
    apply Forall_app; split; try assumption;
    repeat constructor; try assumption; apply fusion_line_no_NL.
Qed.

Lemma insert_at_length (pre : list text) (L : text) (post : list text) :
  List.length (insert_at pre L post) = S (List.length (pre ++ L :: post)).
Proof.
  unfold insert_at. destruct (contains core_anchor L);
    rewrite !length_app; simpl; lia.
Qed.

(** The lines of the text RULE_B writes, when it inserts. *)
Lemma split_join_insert_at (content : text) (pre : list text) (L : text)
      (post : list text) :
  split NL content = pre ++ L :: post ->
  split NL (join [NL] (insert_at pre L post)) = insert_at pre L post.
Proof.
  intros Hs. apply split_join.
  - apply insert_at_nonempty.
  - apply insert_at_no_NL. rewrite <- Hs. apply split_no_sep.
Qed.

(** ** RULE_B on texts *)

(** The three ways [modules_text] ends, after the presence check and the
    pattern check. *)
Lemma modules_text_applied (content c' : text) :
  modules_text content = Applied c' ->
  contains fusion_marker content = false
  /\ Re.search import_pattern content = true
  /\ c' = join [NL] (new_lines (modules_loop (split NL content))).
Proof.
  unfold modules_text.
  destruct (contains fusion_marker content); [discriminate|].
  destruct (Re.search import_pattern content); simpl; [|discriminate].
  intros H. injection H as <-. repeat split.
Qed.

Lemma modules_text_checked (content : text) :
  contains fusion_marker content = false ->
  Re.search import_pattern content = true ->
  modules_text content
  = Applied (join [NL] (new_lines (modules_loop (split NL content)))).
Proof.
  intros Hm Hp. unfold modules_text. rewrite Hm, Hp. reflexivity.
Qed.

(** The general shape of the silent case: with no anchor line inside an
    import block, the text is written back as it was read. *)
Lemma modules_text_no_anchor (content : text) :
  contains fusion_marker content = false ->
  Re.search import_pattern content = true ->
  no_hit false (split NL content) = true ->
  modules_text content = Applied content.
Proof.
  intros Hm Hp Hn. rewrite modules_text_checked by assumption.
  unfold modules_loop, loop_init. rewrite loop_no_hit by exact Hn.
  simpl. rewrite join_split. reflexivity.
Qed.

(** Where RULE_B inserts, the result has the marker. *)
Lemma modules_text_inserted_present (pre : list text) (L : text)
      (post : list text) :
  contains fusion_marker (join [NL] (insert_at pre L post)) = true.
Proof.
  apply contains_join with (l := fusion_line).
  - apply In_insert_at.
  - apply fusion_line_marker.
Qed.

(** The text RULE_B leaves is a fixed point of RULE_B's text. *)
Lemma modules_result_idempotent (content : text) :
  let r := result content (modules_text content) in
  result r (modules_text r) = r.
Proof.
  simpl. destruct (modules_text content) as [|c'|] eqn:Ho; simpl.
  - rewrite Ho. reflexivity.
  - apply modules_text_applied in Ho. destruct Ho as (Hm & Hp & ->).
    destruct (modules_loop_spec (split NL content))
      as [[Hn ->] | (pre & L & post & Hs & Hf & ->)]; simpl.
    + rewrite join_split.
      rewrite (modules_text_no_anchor content Hm Hp Hn). reflexivity.
    + unfold modules_text at 1.
      rewrite modules_text_inserted_present. reflexivity.
  - rewrite Ho. reflexivity.
Qed.

(** After an insertion, RULE_B finds the import present. *)
Lemma modules_reapply_after_insert (content : text) (pre : list text)
      (L : text) (post : list text) :
  contains fusion_marker content = false ->
  Re.search import_pattern content = true ->
  split NL content = pre ++ L :: post ->
  first_anchor pre L ->
  modules_text (result content (modules_text content)) = AlreadyPresent.
Proof.
  intros Hm Hp Hs Hf. rewrite (modules_text_checked content Hm Hp).
  rewrite Hs, loop_hit by exact Hf. simpl.
  unfold modules_text.
  rewrite modules_text_inserted_present. reflexivity.
Qed.

(** ** RULE_A on texts *)

Lemma fusion_code_markers :
  contains (lit "registerFusionTools") fusion_code = true
  /\ contains (lit "SetFusionRegistration") fusion_code = true.
Proof. split; vm_compute; reflexivity. Qed.

Lemma fusion_code_length : List.length fusion_code = 631.
Proof. vm_compute. reflexivity. Qed.

Lemma toolsets_text_applied (content c' : text) :
  toolsets_text content = Applied c' ->
  toolsets_present content = false
  /\ c' = (if endswith content [NL] then content else content ++ [NL])
          ++ fusion_code.
Proof.
  unfold toolsets_text. destruct (toolsets_present content); [discriminate|].
  intros H. injection H as <-.
  split; [reflexivity|]. destruct (endswith content [NL]); reflexivity.
Qed.

Lemma toolsets_never_fails (content : text) :
  toolsets_text content <> NotFound.
Proof.
  unfold toolsets_text. destruct (toolsets_present content); discriminate.
Qed.

(** After RULE_A has appended the hook, it finds the hook present. *)
Lemma toolsets_text_idempotent (content : text) :
  toolsets_text (result content (toolsets_text content)) = AlreadyPresent.
Proof.
  destruct (toolsets_text content) as [|c'|] eqn:Ho; simpl.
  - exact Ho.
  - apply toolsets_text_applied in Ho. destruct Ho as [_ ->].
    unfold toolsets_text, toolsets_present.
    destruct fusion_code_markers as [H1 H2].
    rewrite (contains_app_r _ _ _ H1), (contains_app_r _ _ _ H2).
    reflexivity.
  - destruct (toolsets_never_fails content Ho).
Qed.

(** ** The patch functions over the environment *)

Section PatchRuns.

Variable E : env.

Lemma apply_toolsets_patch_run (st : state E) (content : text) :
  path_exists E toolsets_path (world st) = true ->
  read_text E toolsets_path (world st) = Some content ->
  apply_toolsets_patch st
  = finish toolsets_path (toolsets_text content) (seen st toolsets_path).
Proof.
  intros Hex Hrd. unfold apply_toolsets_patch, bind, file_exists, file_read.
  rewrite Hex. simpl. rewrite Hrd. reflexivity.
Qed.

Lemma apply_modules_patch_run (st : state E) (content : text) :
  path_exists E modules_path (world st) = true ->
  read_text E modules_path (world st) = Some content ->
  apply_modules_patch st
  = finish modules_path (modules_text content) (seen st modules_path).
Proof.
  intros Hex Hrd. unfold apply_modules_patch, bind, file_exists, file_read.
  rewrite Hex. simpl. rewrite Hrd. reflexivity.
Qed.

Lemma apply_toolsets_patch_missing (st : state E) :
  path_exists E toolsets_path (world st) = false ->
  apply_toolsets_patch st = (Ret false, missing st toolsets_path).
Proof.
  intros Hex. unfold apply_toolsets_patch, bind, file_exists.
  rewrite Hex. reflexivity.
Qed.

Lemma apply_modules_patch_missing (st : state E) :
  path_exists E modules_path (world st) = false ->
  apply_modules_patch st = (Ret false, missing st modules_path).
Proof.
  intros Hex. unfold apply_modules_patch, bind, file_exists.
  rewrite Hex. reflexivity.
Qed.

End PatchRuns.

(** ** The stages of [main] *)

Section Stages.

Variable E : env.

Lemma bind_ret_inv (A B : Type) (m : M E A) (k : A -> M E B)
      (st st' : state E) (b : B) :
  bind m k st = (Ret b, st') ->
  exists a st1, m st = (Ret a, st1) /\ k a st1 = (Ret b, st').
Proof.
  unfold bind. destruct (m st) as [[a|c|e] st1]; intros H;
    [exists a, st1; split; [reflexivity | exact H] | discriminate ..].
Qed.

Lemma bind_ret (A B : Type) (m : M E A) (k : A -> M E B)
      (st st1 : state E) (a : A) :
  m st = (Ret a, st1) -> bind m k st = k a st1.
Proof. unfold bind. intros ->. reflexivity. Qed.

(** *** Only [sys.exit(1)] leaves the script *)

Lemma exits_ret (A : Type) (code : Z) (a : A) :
  exits_with code (ret (E := E) a).
Proof. intros st c st' H. discriminate. Qed.

Lemma exits_raise (A : Type) (code : Z) (e : exn) :
  exits_with code (raise (E := E) (A := A) e).
Proof. intros st c st' H. discriminate. Qed.

Lemma exits_sys_exit (A : Type) (code : Z) :
  exits_with code (sys_exit (E := E) (A := A) code).
Proof. intros st c st' H. injection H as <- _. reflexivity. Qed.

Lemma exits_bind (A B : Type) (code : Z) (m : M E A) (k : A -> M E B) :
  exits_with code m -> (forall a, exits_with code (k a)) ->
  exits_with code (bind m k).
Proof.
  intros Hm Hk st c st'. unfold bind.
  destruct (m st) as [[a|c1|e] st1] eqn:Em; intros H.
  - eapply Hk. exact H.
  - injection H as <- _. eapply Hm. exact Em.
  - discriminate.
Qed.

Lemma exits_if (A : Type) (code : Z) (b : bool) (m1 m2 : M E A) :
  exits_with code m1 -> exits_with code m2 ->
  exits_with code (if b then m1 else m2).
Proof. destruct b; auto. Qed.

Lemma exits_run_command (code : Z) (cmd : text) (check capture : bool) :
  exits_with code (run_command (E := E) cmd check capture).
Proof.
  intros st c st'. unfold run_command.
  destruct (exec E cmd (world st)) as [[rc out] w].
  destruct (check && negb (rc =? 0)%Z); discriminate.
Qed.

Lemma exits_stdout_str (code : Z) (r : completed) :
  exits_with code (stdout_str (E := E) r).
Proof.
  unfold stdout_str. destruct (stdout r); [apply exits_ret | apply exits_raise].
Qed.

Lemma exits_file_exists (code : Z) (p : text) :
  exits_with code (file_exists (E := E) p).
Proof. intros st c st'. unfold file_exists. discriminate. Qed.

Lemma exits_file_read (code : Z) (p : text) :
  exits_with code (file_read (E := E) p).
Proof.
  intros st c st'. unfold file_read.
  destruct (read_text E p (world st)); discriminate.
Qed.

Lemma exits_file_write (code : Z) (p s : text) :
  exits_with code (file_write (E := E) p s).
Proof.
  intros st c st'. unfold file_write.
  destruct (write_text E p s (world st)) as [[|] w]; discriminate.
Qed.

Lemma exits_finish (code : Z) (p : text) (o : outcome) :
  exits_with code (finish (E := E) p o).
Proof.
  destruct o; simpl; try apply exits_ret.
  apply exits_bind; [apply exits_file_write | intros; apply exits_ret].
Qed.

Create HintDb exits.

#[local] Hint Resolve exits_ret exits_raise exits_sys_exit exits_run_command
  exits_stdout_str exits_file_exists exits_file_read exits_file_write
  exits_finish : exits.

Ltac exits :=
  repeat first
    [ apply exits_bind; [|intros ?]
    | apply exits_if
    | solve [auto with exits] ].

Lemma exits_main (argv : list text) : exits_with 1%Z (main (E := E) argv).
Proof.
  unfold main, check_git_clean, check_remotes, sync_upstream,
    apply_toolsets_patch, apply_modules_patch, run_tests, commit_and_push.
  exits.
Qed.

(** The exit code is 0 or 1, and 0 exactly when [main] returns. *)
Lemma script_code (argv : list text) (st : state E) :
  (fst (script argv st) = 0%Z \/ fst (script argv st) = 1%Z)
  /\ (fst (script argv st) = 0%Z <->
      main argv st = (Ret tt, snd (script argv st))).
Proof.
  unfold script. destruct (main argv st) as [[[]|c|e] st'] eqn:Em; simpl.
  - split; [left; reflexivity | split; reflexivity].
  - apply exits_main in Em. subst c.
    split; [right; reflexivity | split; discriminate].
  - split; [right; reflexivity | split; discriminate].
Qed.

(** [main] returns exactly when every stage returns success. *)
Lemma main_ret_iff (argv : list text) (st st' : state E) :
  main argv st = (Ret tt, st') <-> all_stages_ok argv st st'.
Proof.
  unfold all_stages_ok, main. split.
  - intros H.
    repeat (apply bind_ret_inv in H;
            let a := fresh "ok" in let s := fresh "st" in
            let Hm := fresh "Hm" in
            destruct H as (a & s & Hm & H);
            destruct a; simpl in H; try discriminate).
    injection H as <-.
    do 6 eexists. repeat split; eassumption.
  - intros (st1 & st2 & st3 & st4 & st5 & st6
            & H1 & H2 & H3 & H4 & H5 & H6 & H7).
    repeat (erewrite bind_ret by eassumption; simpl).
    reflexivity.
Qed.

End Stages.

(** ** What a successful stage leaves in the trace *)

Section CleanRuns.

Variable E : env.



















End CleanRuns.

(** ** How a stage fails *)

Section Failures.

Variable E : env.

(** A dirty tree without [--force]. *)
Lemma check_git_clean_dirty (st : state E) (out : text) (w : World E) :
  exec E cmd_status (world st) = (0%Z, out, w) ->
  truthy (strip out) = true ->
  check_git_clean false st = (Ret false, log st w (EvRun cmd_status 0%Z)).
Proof.
  intros Hx Hd. unfold check_git_clean, bind, run_command.
  rewrite Hx. simpl. rewrite Hd. reflexivity.
Qed.

(** A remote [origin] that is not the fork. *)
Lemma check_remotes_bad_origin (st : state E) (remotes : text) (w : World E) :
  exec E cmd_remote_v (world st) = (0%Z, remotes, w) ->
  contains (lit "origin") remotes
  && contains (lit "sandeepbazar/ibm-fusion-mcp-server") remotes = false ->
  check_remotes st = (Ret false, log st w (EvRun cmd_remote_v 0%Z)).
Proof.
  intros Hx Ho. unfold check_remotes, bind, run_command.
  rewrite Hx. simpl. rewrite Ho. reflexivity.
Qed.

(** A command run with [check=True] that returns non-zero. *)
Lemma run_command_checked_fails (cmd : text) (capture : bool) (st : state E)
      (rc : Z) (out : text) (w : World E) :
  exec E cmd (world st) = (rc, out, w) ->
  rc <> 0%Z ->
  run_command cmd true capture st
  = (Raise (CalledProcessError cmd rc), log st w (EvRun cmd rc)).
Proof.
  intros Hx Hrc. unfold run_command. rewrite Hx.
  apply Z.eqb_neq in Hrc. rewrite Hrc. reflexivity.
Qed.

(** The import pattern is not found. *)
Lemma apply_modules_patch_not_found (st : state E) (content : text) :
  path_exists E modules_path (world st) = true ->
  read_text E modules_path (world st) = Some content ->
  modules_text content = NotFound ->
  apply_modules_patch st = (Ret false, seen st modules_path).
Proof.
  intros Hex Hrd Ho. rewrite (apply_modules_patch_run st Hex Hrd), Ho.
  reflexivity.
Qed.

(** A stage that does not return [True] makes [main] end in
    [sys.exit(1)] or in an exception, and the process end with code 1. *)
Lemma script_not_ok (argv : list text) (st : state E) :
  (forall st', ~ all_stages_ok argv st st') ->
  fst (script argv st) = 1%Z.
Proof.
  intros Hno. destruct (script_code argv st) as [[H0|H1] Hiff];
    [|exact H1].
  exfalso. apply (Hno (snd (script argv st))).
  apply main_ret_iff, Hiff. exact H0.
Qed.

End Failures.

(** ** What each stage needs from the environment *)

Section StageNeeds.

Variable E : env.










End StageNeeds.

(** * The claims *)

(** ** C1: idempotence *)

(** C1.  For both rules and every text: the text the rule leaves is left
    as it is by a second application, which therefore does not change the
    file's text; RULE_A then reports the hook present.  And a text that
    satisfies the presence check of a rule is reported present and
    returned as it is. *)
Theorem rules_idempotent (content : text) :
  let ra := result content (toolsets_text content) in
  let rb := result content (modules_text content) in
  (result ra (toolsets_text ra) = ra
   /\ altered ra (toolsets_text ra) = false
   /\ toolsets_text ra = AlreadyPresent)
  /\ (result rb (modules_text rb) = rb
      /\ altered rb (modules_text rb) = false)
  /\ (toolsets_present content = true ->
      toolsets_text content = AlreadyPresent
      /\ result content (toolsets_text content) = content)
  /\ (contains fusion_marker content = true ->
      modules_text content = AlreadyPresent
      /\ result content (modules_text content) = content).
Proof.
  cbv zeta.
  assert (Hsame : forall t : text, negb (text_eqb t t) = false).
  { intros t. apply negb_false_iff, text_eqb_spec. reflexivity. }
  pose proof (toolsets_text_idempotent content) as Ha.
  pose proof (modules_result_idempotent content) as Hb. cbv zeta in Hb.
  split; [|split; [|split]].
  - unfold altered. rewrite Ha. cbn [result].
    split; [reflexivity|]. split; [apply Hsame | reflexivity].
  - unfold altered. rewrite Hb. split; [reflexivity | apply Hsame].
  - intros Hp. unfold toolsets_text. rewrite Hp. split; reflexivity.
  - intros Hp. unfold modules_text. rewrite Hp. split; reflexivity.
Qed.

Lemma rules_idempotent_witness :
  toolsets_present comment_text = true
  /\ contains fusion_marker comment_text = true
  /\ toolsets_text comment_text = AlreadyPresent
  /\ result comment_text (toolsets_text comment_text) = comment_text
  /\ modules_text comment_text = AlreadyPresent
  /\ result comment_text (modules_text comment_text) = comment_text.
Proof.
  assert (Ha : toolsets_present comment_text = true)
    by (vm_compute; reflexivity).
  assert (Hb : contains fusion_marker comment_text = true)
    by (vm_compute; reflexivity).
  split; [exact Ha|]. split; [exact Hb|].
  destruct (rules_idempotent comment_text) as (_ & _ & Hta & Htb).
  destruct (Hta Ha) as [H1 H2]. destruct (Htb Hb) as [H3 H4].
  split; [exact H1|]. split; [exact H2|]. split; [exact H3 | exact H4].
Defined.

(** ** C2: no anchor in the import block *)

(** C2.  With [no_anchor_text] in [pkg/mcp/modules.go],
    [apply_modules_patch] returns [True] and writes the file, with the
    text it read: no anchor line is inside the import block, and no
    failure is reported. *)
Theorem no_anchor_reports_success :
  contains core_anchor no_anchor_text = false
  /\ contains helm_anchor no_anchor_text = false
  /\ apply_modules_patch
       (@start (sim_env all_ok) [(modules_path, no_anchor_text)])
     = (Ret true,
        State (sim_env all_ok)
          [(modules_path, no_anchor_text); (modules_path, no_anchor_text)]
          [EvExists modules_path true; EvRead modules_path;
           EvWrite modules_path no_anchor_text]).
Proof.
  split; [vm_compute; reflexivity|].
  split; vm_compute; reflexivity.
Qed.

(** ** C3: where the line goes *)

(** C3, as stated, fails on [helm_first_text]: the text lacks the fusion
    import, its import block has a [core] entry (line 4, inside the block
    opened at line 2), and the new line is not put after that entry but
    before the [helm] entry that precedes it. *)
Lemma helm_first_counterexample :
  let pre := firstn 4 (split NL helm_first_text) in
  let L := nth 4 (split NL helm_first_text) [] in
  let post := skipn 5 (split NL helm_first_text) in
  contains fusion_marker helm_first_text = false
  /\ split NL helm_first_text = pre ++ L :: post
  /\ block_flag pre = true
  /\ contains core_anchor L = true
  /\ modules_text helm_first_text
     <> Applied (join [NL] (pre ++ L :: fusion_line :: post))
  /\ modules_text helm_first_text
     = Applied (join [NL] (firstn 3 (split NL helm_first_text)
                           ++ fusion_line
                              :: skipn 3 (split NL helm_first_text))).
Proof.
  cbv zeta.
  split; [vm_compute; reflexivity|].
  split; [vm_compute; reflexivity|].
  split; [vm_compute; reflexivity|].
  split; [vm_compute; reflexivity|].
  split; [vm_compute; discriminate | vm_compute; reflexivity].
Qed.

(** C3, amended.  On a text without the fusion import that passes the
    pattern check, go through the lines with the flag of the loop: off at
    the start, switched on by every line that contains [import (] with
    the space, switched off by a line that contains a closing parenthesis
    and not [import (].  Let [L] be the first line that is reached with
    the flag on, does not contain [import (] and names [core] or [helm]
    ([first_anchor]).  Then the fixed line goes right after [L] when [L]
    names [core], and right before [L] otherwise, in which case [L] names
    [helm]; every other line stays as and where it is. *)
Theorem modules_inserts_at_first_anchor
        (content : text) (pre : list text) (L : text) (post : list text) :
  contains fusion_marker content = false ->
  Re.search import_pattern content = true ->
  split NL content = pre ++ L :: post ->
  first_anchor pre L ->
  (contains core_anchor L = true ->
   modules_text content
   = Applied (join [NL] (pre ++ L :: fusion_line :: post)))
  /\ (contains core_anchor L = false ->
      contains helm_anchor L = true
      /\ modules_text content
         = Applied (join [NL] (pre ++ fusion_line :: L :: post))).
Proof.
  intros Hm Hp Hs Hf.
  assert (Ho : modules_text content
               = Applied (join [NL] (insert_at pre L post))).
  { rewrite (modules_text_checked content Hm Hp), Hs.
    rewrite (loop_hit post Hf). reflexivity. }
  unfold insert_at in Ho. split; intros Hc; rewrite Hc in Ho.
  - exact Ho.
  - split; [|exact Ho]. destruct Hf as [_ Hh]. unfold hit in Hh.
    rewrite Hc in Hh. apply andb_true_iff in Hh. destruct Hh as [_ Hh].
    exact Hh.
Qed.

Lemma modules_inserts_at_first_anchor_witness :
  let pre := firstn 4 (split NL sorted_text) in
  let L := nth 4 (split NL sorted_text) [] in
  let post := skipn 5 (split NL sorted_text) in
  first_anchor pre L
  /\ contains core_anchor L = true
  /\ modules_text sorted_text
     = Applied (join [NL] (pre ++ L :: fusion_line :: post)).
Proof.
  cbv zeta.
  assert (Hf : first_anchor (firstn 4 (split NL sorted_text))
                 (nth 4 (split NL sorted_text) []))
    by (split; vm_compute; reflexivity).
  split; [exact Hf|]. split; [vm_compute; reflexivity|].
  apply (modules_inserts_at_first_anchor
           sorted_text (skipn 5 (split NL sorted_text))).
  - vm_compute; reflexivity.
  - vm_compute; reflexivity.
  - vm_compute; reflexivity.
  - exact Hf.
  - vm_compute; reflexivity.
Defined.

(** ** C4: an import block that is never closed *)

(** C4, as stated, fails on [unclosed_text]: the text has the opening
    marker and no closing marker anywhere, and RULE_B does not give up; it
    inserts the line after the [core] entry and writes the file. *)
Lemma unclosed_block_counterexample :
  contains fusion_marker unclosed_text = false
  /\ contains open_marker unclosed_text = true
  /\ contains close_marker unclosed_text = false
  /\ modules_text unclosed_text <> NotFound
  /\ changed (modules_text unclosed_text) = true
  /\ result unclosed_text (modules_text unclosed_text) <> unclosed_text.
Proof.
  split; [vm_compute; reflexivity|].
  split; [vm_compute; reflexivity|].
  split; [vm_compute; reflexivity|].
  split; [vm_compute; discriminate|].
  split; [vm_compute; reflexivity | vm_compute; discriminate].
Qed.

(** C4, amended.  When the file lacks the fusion import and nowhere holds
    the opening of an import block followed by a first blank-import entry
    ([import_block_start]), [apply_modules_patch] returns [False] and
    leaves the environment as it was: the file is looked up and read, not
    written. *)
Theorem modules_structure_not_found
        (E : env) (st : state E) (content : text) :
  path_exists E modules_path (world st) = true ->
  read_text E modules_path (world st) = Some content ->
  contains fusion_marker content = false ->
  (forall a p b, content = a ++ p ++ b -> ~ import_block_start p) ->
  modules_text content = NotFound
  /\ apply_modules_patch st = (Ret false, seen st modules_path)
  /\ world (seen st modules_path) = world st.
Proof.
  intros Hex Hrd Hm Hno.
  assert (Hs : Re.search import_pattern content = false).
  { destruct (Re.search import_pattern content) eqn:Hs; [|reflexivity].
    apply search_import_pattern in Hs.
    destruct Hs as (a & p & b & Hc & Hp). destruct (Hno a p b Hc Hp). }
  assert (Ho : modules_text content = NotFound).
  { unfold modules_text. rewrite Hm, Hs. reflexivity. }
  split; [exact Ho|]. split; [|reflexivity].
  apply apply_modules_patch_not_found with (content := content); assumption.
Qed.

Lemma modules_structure_not_found_witness :
  let content := lit "package mcp" in
  let st := @start (sim_env all_ok) [(modules_path, content)] in
  modules_text content = NotFound
  /\ apply_modules_patch st = (Ret false, seen st modules_path)
  /\ world (seen st modules_path) = world st.
Proof.
  cbv zeta.
  apply (@modules_structure_not_found (sim_env all_ok)).
  - vm_compute; reflexivity.
  - vm_compute; reflexivity.
  - vm_compute; reflexivity.
  - intros a p b Hc Hp.
    assert (Hs : Re.search import_pattern (lit "package mcp") = true)
      by (apply search_import_pattern; exists a, p, b; split; assumption).
    vm_compute in Hs. discriminate.
Defined.

(** ** C5: locality *)

(** C5.  When RULE_B takes the writing path, either the text is written
    back as read, or its lines are those read with exactly one new line,
    the fixed import line, put next to a line [L] that lies in an import
    block: after the block's opening line and lines that do not close it.
    Every line read is kept, unaltered and in order. *)
Theorem modules_locality (content c' : text) :
  modules_text content = Applied c' ->
  c' = content
  \/ exists before opener body L after,
       split NL content = before ++ opener :: body ++ L :: after
       /\ contains open_marker opener = true
       /\ Forall keeps_block body
       /\ (split NL c'
           = before ++ opener :: body ++ L :: fusion_line :: after
           \/ split NL c'
              = before ++ opener :: body ++ fusion_line :: L :: after).
Proof.
  intros Ho. apply modules_text_applied in Ho. destruct Ho as (_ & _ & ->).
  destruct (modules_loop_spec (split NL content))
    as [[_ ->] | (pre & L & post & Hs & Hf & ->)]; simpl.
  - left. apply join_split.
  - right. rewrite (split_join_insert_at content pre L post Hs).
    destruct Hf as [_ Hh]. apply hit_in_block, block_flag_true in Hh.
    destruct Hh as (before & opener & body & -> & Hopen & Hbody).
    exists before, opener, body, L, post.
    split; [rewrite Hs, <- app_assoc; reflexivity|].
    split; [exact Hopen|]. split; [exact Hbody|].
    unfold insert_at. destruct (contains core_anchor L);
      [left | right]; rewrite <- app_assoc; reflexivity.
Qed.

Lemma modules_locality_witness :
  modules_text sorted_text
  = Applied (result sorted_text (modules_text sorted_text))
  /\ (result sorted_text (modules_text sorted_text) = sorted_text
      \/ exists before opener body L after,
           split NL sorted_text = before ++ opener :: body ++ L :: after
           /\ contains open_marker opener = true
           /\ Forall keeps_block body
           /\ (split NL (result sorted_text (modules_text sorted_text))
               = before ++ opener :: body ++ L :: fusion_line :: after
               \/ split NL (result sorted_text (modules_text sorted_text))
                  = before ++ opener :: body ++ fusion_line :: L :: after)).
Proof.
  assert (H : modules_text sorted_text
              = Applied (result sorted_text (modules_text sorted_text)))
    by (vm_compute; reflexivity).
  split; [exact H|].
  apply (modules_locality sorted_text). exact H.
Defined.

(** ** C6: the length RULE_A adds *)

(** C6.  When RULE_A takes the writing path, the text written is the text
    read, then a line break if the text read does not end with one, then
    the hook block; so its length is the length read plus the length of
    the hook block, plus one exactly when the line break was added. *)
Theorem toolsets_length (content c' : text) :
  toolsets_text content = Applied c' ->
  c' = content ++ (if endswith content [NL] then [] else [NL]) ++ fusion_code
  /\ List.length c'
     = List.length content
       + (if endswith content [NL] then 0 else 1)
       + List.length fusion_code.
Proof.
  intros Ho. apply toolsets_text_applied in Ho. destruct Ho as [_ ->].
  destruct (endswith content [NL]).
  - split; [reflexivity|]. rewrite length_app. lia.
  - split; [rewrite <- app_assoc; reflexivity|].
    rewrite !length_app. change (List.length [NL]) with 1. lia.
Qed.

Lemma toolsets_length_witness :
  let content := lit "package toolsets" in
  toolsets_text content = Applied (content ++ [NL] ++ fusion_code)
  /\ List.length (content ++ [NL] ++ fusion_code)
     = List.length content + 1 + List.length fusion_code.
Proof.
  cbv zeta.
  assert (H : toolsets_text (lit "package toolsets")
              = Applied (lit "package toolsets" ++ [NL] ++ fusion_code))
    by (vm_compute; reflexivity).
  split; [exact H|].
  exact (proj2 (toolsets_length (lit "package toolsets") H)).
Defined.

(** ** C7: the exit code *)




(** A second way to code 0 with something amiss: with [no_anchor_text]
    in [modules.go] nothing is inserted, [apply_modules_patch] returns
    [True] all the same, and the process runs the tests and ends with
    code 0. *)
Lemma no_anchor_run_ends_with_zero :
  let st := @start (sim_env all_ok)
              [(toolsets_path, lit "package toolsets");
               (modules_path, no_anchor_text)] in
  fst (script [] st) = 0%Z
  /\ In (EvWrite modules_path no_anchor_text) (trace (snd (script [] st)))
  /\ In (EvRun cmd_test 0%Z) (trace (snd (script [] st))).
Proof.
  cbv zeta. split; [vm_compute; reflexivity|].
  split; vm_compute; tauto.
Qed.

(** ** C8: the presence check is a substring search *)

(** C8.  Wherever the two RULE_A markers occur in the text of
    [toolsets.go], and wherever the RULE_B marker occurs in the text of
    [modules.go], the patch function reports the hook present: it returns
    [True], takes the path that writes nothing, and leaves the
    environment as it was. *)
Theorem markers_anywhere_skip (E : env) (st : state E) (content : text) :
  ((exists a b, content = a ++ lit "registerFusionTools" ++ b) ->
   (exists a b, content = a ++ lit "SetFusionRegistration" ++ b) ->
   toolsets_text content = AlreadyPresent
   /\ (path_exists E toolsets_path (world st) = true ->
       read_text E toolsets_path (world st) = Some content ->
       apply_toolsets_patch st = (Ret true, seen st toolsets_path)
       /\ world (seen st toolsets_path) = world st))
  /\ ((exists a b, content = a ++ fusion_marker ++ b) ->
      modules_text content = AlreadyPresent
      /\ (path_exists E modules_path (world st) = true ->
          read_text E modules_path (world st) = Some content ->
          apply_modules_patch st = (Ret true, seen st modules_path)
          /\ world (seen st modules_path) = world st)).
Proof.
  split.
  - intros H1 H2. apply contains_spec in H1, H2.
    assert (Ho : toolsets_text content = AlreadyPresent).
    { unfold toolsets_text, toolsets_present. rewrite H1, H2. reflexivity. }
    split; [exact Ho|]. intros Hex Hrd.
    rewrite (apply_toolsets_patch_run st Hex Hrd), Ho.
    split; reflexivity.
  - intros H. apply contains_spec in H.
    assert (Ho : modules_text content = AlreadyPresent).
    { unfold modules_text. rewrite H. reflexivity. }
    split; [exact Ho|]. intros Hex Hrd.
    rewrite (apply_modules_patch_run st Hex Hrd), Ho.
    split; reflexivity.
Qed.

Lemma markers_anywhere_skip_witness :
  let st := @start (sim_env all_ok)
              [(toolsets_path, comment_text); (modules_path, comment_text)] in
  (toolsets_text comment_text = AlreadyPresent
   /\ apply_toolsets_patch st = (Ret true, seen st toolsets_path))
  /\ (modules_text comment_text = AlreadyPresent
      /\ apply_modules_patch st = (Ret true, seen st modules_path)).
Proof.
  cbv zeta.
  pose proof (markers_anywhere_skip
                (@start (sim_env all_ok)
                   [(toolsets_path, comment_text);
                    (modules_path, comment_text)])
                comment_text) as [HA HB].
  split.
  - destruct HA as [Ho Hrun].
    + apply contains_spec. vm_compute. reflexivity.
    + apply contains_spec. vm_compute. reflexivity.
    + split; [exact Ho|]. apply Hrun; vm_compute; reflexivity.
  - destruct HB as [Ho Hrun].
    + apply contains_spec. vm_compute. reflexivity.
    + split; [exact Ho|]. apply Hrun; vm_compute; reflexivity.
Defined.

(** ** C9: at most one line is added *)

(** C9.  On every text, whatever RULE_B does, the text it leaves has at
    most one line more than the text it read. *)
Theorem modules_at_most_one_line (content : text) :
  List.length (split NL (result content (modules_text content)))
  <= S (List.length (split NL content)).
Proof.
  destruct (modules_text content) as [|c'|] eqn:Ho; simpl; try lia.
  apply modules_text_applied in Ho. destruct Ho as (_ & _ & ->).
  destruct (modules_loop_spec (split NL content))
    as [[_ ->] | (pre & L & post & Hs & Hf & ->)]; simpl.
  - rewrite join_split. lia.
  - rewrite (split_join_insert_at content pre L post Hs).
    rewrite insert_at_length, Hs. lia.
Qed.

(** ** C10: a missing target file *)

(** C10.  When its target file does not exist, a patch function returns
    [False] and leaves the environment as it was, having only looked the
    file up; and [main], which called it, ends with code 1 in that very
    state, so neither the tests nor the commit and push run. *)
Theorem missing_target_halts
        (E : env) (argv : list text) (st0 st : state E) :
  (path_exists E toolsets_path (world st) = false ->
   apply_toolsets_patch st = (Ret false, missing st toolsets_path)
   /\ world (missing st toolsets_path) = world st
   /\ (reaches_toolsets argv st0 st ->
       script argv st0 = (1%Z, missing st toolsets_path)))
  /\ (path_exists E modules_path (world st) = false ->
      apply_modules_patch st = (Ret false, missing st modules_path)
      /\ world (missing st modules_path) = world st
      /\ (reaches_modules argv st0 st ->
          script argv st0 = (1%Z, missing st modules_path))).
Proof.
  split; intros Hex.
  - pose proof (apply_toolsets_patch_missing st Hex) as Hp.
    split; [exact Hp|]. split; [reflexivity|].
    intros (st1 & st2 & H1 & H2 & H3).
    unfold script, main.
    repeat (erewrite bind_ret by eassumption; simpl).
    reflexivity.
  - pose proof (apply_modules_patch_missing st Hex) as Hp.
    split; [exact Hp|]. split; [reflexivity|].
    intros (st3 & (st1 & st2 & H1 & H2 & H3) & H4).
    unfold script, main.
    repeat (erewrite bind_ret by eassumption; simpl).
    reflexivity.
Qed.

Lemma missing_target_halts_witness :
  let st0 := @start (sim_env all_ok) [] in
  let st := snd (sync_upstream
                   (snd (check_remotes (snd (check_git_clean false st0))))) in
  path_exists (sim_env all_ok) toolsets_path (world st) = false
  /\ reaches_toolsets [] st0 st
  /\ apply_toolsets_patch st = (Ret false, missing st toolsets_path)
  /\ script [] st0 = (1%Z, missing st toolsets_path).
Proof.
  cbv zeta.
  set (st0 := @start (sim_env all_ok) []).
  set (st := snd (sync_upstream
                    (snd (check_remotes (snd (check_git_clean false st0)))))).
  assert (Hex : path_exists (sim_env all_ok) toolsets_path (world st) = false)
    by (vm_compute; reflexivity).
  assert (Hreach : reaches_toolsets [] st0 st).
  { exists (snd (check_git_clean false st0)),
      (snd (check_remotes (snd (check_git_clean false st0)))).
    split; [vm_compute; reflexivity|].
    split; vm_compute; reflexivity. }
  destruct (proj1 (missing_target_halts [] st0 st) Hex) as (Hp & _ & Hs).
  split; [exact Hex|]. split; [exact Hreach|].
  split; [exact Hp | exact (Hs Hreach)].
Defined.

(** * Further properties *)

(** ** The two rules on texts *)

Lemma lines_lack (sub content : text) :
  contains sub content = false ->
  Forall (fun l => contains sub l = false) (split NL content).
Proof.
  intros Hc. apply Forall_forall. intros l Hin.
  destruct (contains sub l) eqn:Hl; [|reflexivity].
  rewrite <- (join_split NL content) in Hc.
  rewrite (contains_join sub [NL] l (split NL content) Hin Hl) in Hc.
  discriminate.
Qed.

Lemma filter_none (A : Type) (f : A -> bool) (l : list A) :
  Forall (fun x => f x = false) l -> filter f l = [].
Proof.
  induction 1 as [|x l Hx _ IH]; simpl; [reflexivity|].
  rewrite Hx. exact IH.
Qed.

(** X1.  RULE_A is idempotent on every text: applied to the text it
    leaves, it reports the hook present and leaves the same text. *)
Theorem toolsets_reapply_present (content : text) :
  let r := result content (toolsets_text content) in
  toolsets_text r = AlreadyPresent /\ result r (toolsets_text r) = r.
Proof.
  cbv zeta. pose proof (toolsets_text_idempotent content) as H.
  rewrite H. split; reflexivity.
Qed.

(** X2.  The text RULE_B leaves is a fixed point of RULE_B on every text:
    a second application never alters it further. *)
Theorem modules_reapply_same_text (content : text) :
  let r := result content (modules_text content) in
  result r (modules_text r) = r.
Proof.
  cbv zeta. destruct (modules_text content) as [|c'|] eqn:Ho; simpl.
  - rewrite Ho. reflexivity.
  - apply modules_text_applied in Ho. destruct Ho as (Hm & Hp & ->).
    destruct (modules_loop_spec (split NL content))
      as [[Hn ->] | (pre & L & post & Hs & Hf & ->)]; simpl.
    + rewrite join_split.
      rewrite (modules_text_no_anchor content Hm Hp Hn). reflexivity.
    + unfold modules_text at 1.
      rewrite modules_text_inserted_present. reflexivity.
  - rewrite Ho. reflexivity.
Qed.

(** X3.  Whenever RULE_B alters the text, the text it leaves holds the
    marker, so a second application reports the import present. *)
Theorem modules_altered_then_present (content c' : text) :
  modules_text content = Applied c' ->
  c' <> content ->
  contains fusion_marker c' = true /\ modules_text c' = AlreadyPresent.
Proof.
  intros Ho Hne. apply modules_text_applied in Ho.
  destruct Ho as (Hm & Hp & ->).
  destruct (modules_loop_spec (split NL content))
    as [[_ Hl] | (pre & L & post & Hs & Hf & Hl)];
    rewrite Hl in *; simpl in *.
  - rewrite join_split in Hne. contradiction.
  - pose proof (modules_text_inserted_present pre L post) as Hc.
    split; [exact Hc|]. unfold modules_text. rewrite Hc. reflexivity.
Qed.

Lemma modules_altered_then_present_witness :
  let c' := result sorted_text (modules_text sorted_text) in
  modules_text sorted_text = Applied c'
  /\ c' <> sorted_text
  /\ contains fusion_marker c' = true /\ modules_text c' = AlreadyPresent.
Proof.
  cbv zeta.
  assert (Ho : modules_text sorted_text
               = Applied (result sorted_text (modules_text sorted_text)))
    by (vm_compute; reflexivity).
  assert (Hne : result sorted_text (modules_text sorted_text) <> sorted_text)
    by (vm_compute; discriminate).
  split; [exact Ho|]. split; [exact Hne|].
  exact (@modules_altered_then_present sorted_text _ Ho Hne).
Defined.

(** X4.  RULE_A skips the file exactly when both markers occur in it.
    In every other case, so also with one marker alone, it appends the
    hook block: the text it leaves is the text read, a line break if the
    text did not end with one, and [fusion_code]. *)
Theorem toolsets_skips_iff_both_markers (content : text) :
  (toolsets_text content = AlreadyPresent <->
   (exists a b, content = a ++ lit "registerFusionTools" ++ b)
   /\ (exists a b, content = a ++ lit "SetFusionRegistration" ++ b))
  /\ (toolsets_text content <> AlreadyPresent ->
      toolsets_text content
      = Applied (content ++ (if endswith content [NL] then [] else [NL])
                         ++ fusion_code)).
Proof.
  split.
  - rewrite <- !contains_spec. unfold toolsets_text, toolsets_present.
    destruct (contains (lit "registerFusionTools") content);
      destruct (contains (lit "SetFusionRegistration") content); simpl;
      split; try (intros [? ?]); try discriminate; auto.
  - unfold toolsets_text.
    destruct (toolsets_present content); [intros H; now destruct H|].
    intros _. destruct (endswith content [NL]); simpl.
    + reflexivity.
    + rewrite <- app_assoc. reflexivity.
Qed.

Lemma toolsets_skips_iff_both_markers_witness :
  toolsets_text half_hook_text <> AlreadyPresent
  /\ (exists a b, half_hook_text = a ++ lit "registerFusionTools" ++ b)
  /\ toolsets_text half_hook_text
     = Applied (half_hook_text ++ fusion_code).
Proof.
  assert (Hn : toolsets_text half_hook_text <> AlreadyPresent)
    by (vm_compute; discriminate).
  split; [exact Hn|]. split.
  - apply contains_spec. vm_compute. reflexivity.
  - rewrite (proj2 (toolsets_skips_iff_both_markers half_hook_text) Hn).
    vm_compute. reflexivity.
Defined.

(** X5.  Whenever RULE_B alters the text, exactly one line of the text it
    leaves holds the marker: the import is never added twice. *)
Theorem modules_altered_one_marker_line (content c' : text) :
  modules_text content = Applied c' ->
  c' <> content ->
  marker_lines c' = [fusion_line].
Proof.
  intros Ho Hne. apply modules_text_applied in Ho.
  destruct Ho as (Hm & Hp & ->).
  destruct (modules_loop_spec (split NL content))
    as [[_ Hl] | (pre & L & post & Hs & Hf & Hl)];
    rewrite Hl in *; simpl in *.
  - rewrite join_split in Hne. contradiction.
  - unfold marker_lines.
    rewrite (split_join_insert_at content pre L post Hs).
    pose proof (lines_lack fusion_marker content Hm) as Hall.
    rewrite Hs in Hall. apply Forall_app in Hall. destruct Hall as [Hpre HL].
    inversion HL as [|? ? HL0 Hpost]; subst.
    unfold insert_at. destruct (contains core_anchor L);
      rewrite filter_app; cbn [filter];
      rewrite fusion_line_marker, HL0, (filter_none _ Hpre),
        (filter_none _ Hpost); reflexivity.
Qed.

Lemma modules_altered_one_marker_line_witness :
  let c' := result sorted_text (modules_text sorted_text) in
  modules_text sorted_text = Applied c'
  /\ c' <> sorted_text
  /\ marker_lines c' = [fusion_line].
Proof.
  cbv zeta.
  assert (Ho : modules_text sorted_text
               = Applied (result sorted_text (modules_text sorted_text)))
    by (vm_compute; reflexivity).
  assert (Hne : result sorted_text (modules_text sorted_text) <> sorted_text)
    by (vm_compute; discriminate).
  split; [exact Ho|]. split; [exact Hne|].
  exact (@modules_altered_one_marker_line sorted_text _ Ho Hne).
Defined.

Lemma no_opener_no_hit (lines : list text) :
  Forall (fun l => contains open_marker l = false) lines ->
  no_hit false lines = true.
Proof.
  induction 1 as [|l lines Hl _ IH]; simpl; [reflexivity|].
  unfold hit, flag_step. rewrite Hl, !andb_false_r. simpl. exact IH.
Qed.

(** X6.  The loop of RULE_B opens a block only at a line that holds
    [import (] literally, with one space.  On a text without it, nothing
    is inserted, whatever anchors it has: the text is left as it was, and
    when it lacks the marker and passes the pattern check (as with
    [import(]) it is written back unchanged with success reported. *)
Theorem modules_needs_literal_opener (content : text) :
  contains open_marker content = false ->
  result content (modules_text content) = content
  /\ (contains fusion_marker content = false ->
      Re.search import_pattern content = true ->
      modules_text content = Applied content).
Proof.
  intros Hopen.
  assert (Hn : no_hit false (split NL content) = true)
    by (apply no_opener_no_hit, lines_lack; exact Hopen).
  assert (Ha : contains fusion_marker content = false ->
               Re.search import_pattern content = true ->
               modules_text content = Applied content).
  { intros Hm Hp. exact (modules_text_no_anchor content Hm Hp Hn). }
  split; [|exact Ha].
  destruct (contains fusion_marker content) eqn:Hm.
  - unfold modules_text. rewrite Hm. reflexivity.
  - destruct (Re.search import_pattern content) eqn:Hp.
    + rewrite (Ha eq_refl eq_refl). reflexivity.
    + unfold modules_text. rewrite Hm, Hp. reflexivity.
Qed.

Lemma modules_needs_literal_opener_witness :
  contains open_marker tight_import_text = false
  /\ contains core_anchor tight_import_text = true
  /\ Re.search import_pattern tight_import_text = true
  /\ modules_text tight_import_text = Applied tight_import_text.
Proof.
  assert (Hopen : contains open_marker tight_import_text = false)
    by (vm_compute; reflexivity).
  assert (Hp : Re.search import_pattern tight_import_text = true)
    by (vm_compute; reflexivity).
  split; [exact Hopen|]. split; [vm_compute; reflexivity|].
  split; [exact Hp|].
  apply (proj2 (modules_needs_literal_opener tight_import_text Hopen)).
  - vm_compute; reflexivity.
  - exact Hp.
Defined.

(** X7.  RULE_B gives up exactly on the texts that lack the marker and
    nowhere hold the opening of an import block followed by a first
    blank-import entry. *)
Theorem modules_not_found_iff (content : text) :
  modules_text content = NotFound <->
  contains fusion_marker content = false
  /\ ~ (exists a p b, content = a ++ p ++ b /\ import_block_start p).
Proof.
  rewrite <- search_import_pattern. unfold modules_text.
  destruct (contains fusion_marker content).
  - split; [discriminate | intros [H _]; discriminate].
  - destruct (Re.search import_pattern content); simpl.
    + split; [discriminate | intros [_ H]; destruct H; reflexivity].
    + split; [intros _; split; [reflexivity | discriminate] | reflexivity].
Qed.

(** *** The length RULE_B adds *)

Lemma join_insert_length (sep : char) (F : text) (pre rest : list text) :
  pre ++ rest <> [] ->
  List.length (join [sep] (pre ++ F :: rest))
  = List.length (join [sep] (pre ++ rest)) + List.length F + 1.
Proof.
  induction pre as [|a pre IH]; intros Hne.
  - destruct rest as [|x rest]; [contradiction|].
    change (join [sep] ([] ++ F :: x :: rest))
      with (F ++ [sep] ++ join [sep] (x :: rest)).
    rewrite !length_app. simpl app. change (List.length [sep]) with 1. lia.
  - change ((a :: pre) ++ F :: rest) with (a :: (pre ++ F :: rest)).
    change ((a :: pre) ++ rest) with (a :: (pre ++ rest)).
    rewrite join_app_length by (intros H; apply app_eq_nil in H;
                                destruct H; discriminate).
    destruct (pre ++ rest) as [|y ys] eqn:Epr.
    + apply app_eq_nil in Epr. destruct Epr as [-> ->]. simpl. lia.
    + rewrite (@join_app_length [sep] a (y :: ys)) by discriminate.
      rewrite IH by discriminate. lia.
Qed.

Lemma fusion_line_length : List.length fusion_line = 68.
Proof. vm_compute. reflexivity. Qed.

(** X8.  When RULE_B alters the text, the text it leaves is longer by the
    fixed import line and one line break: 69 code points. *)
Theorem modules_altered_length (content c' : text) :
  modules_text content = Applied c' ->
  c' <> content ->
  List.length c' = List.length content + 69.
Proof.
  intros Ho Hne. apply modules_text_applied in Ho.
  destruct Ho as (Hm & Hp & ->).
  destruct (modules_loop_spec (split NL content))
    as [[_ Hl] | (pre & L & post & Hs & Hf & Hl)];
    rewrite Hl in *; cbn [new_lines] in *.
  - rewrite join_split in Hne. contradiction.
  - assert (Hc : List.length content
                 = List.length (join [NL] (pre ++ L :: post)))
      by (rewrite <- Hs, join_split; reflexivity).
    rewrite Hc. unfold insert_at. destruct (contains core_anchor L).
    + change (pre ++ L :: fusion_line :: post)
        with (pre ++ [L] ++ fusion_line :: post).
      change (pre ++ L :: post) with (pre ++ [L] ++ post).
      rewrite !app_assoc.
      rewrite join_insert_length, fusion_line_length; [lia|].
      intros H. apply app_eq_nil in H. destruct H as [H _].
      apply app_eq_nil in H. destruct H; discriminate.
    + rewrite join_insert_length, fusion_line_length; [lia|].
      intros H. apply app_eq_nil in H. destruct H; discriminate.
Qed.

Lemma modules_altered_length_witness :
  let c' := result sorted_text (modules_text sorted_text) in
  modules_text sorted_text = Applied c'
  /\ c' <> sorted_text
  /\ List.length c' = List.length sorted_text + 69.
Proof.
  cbv zeta.
  assert (Ho : modules_text sorted_text
               = Applied (result sorted_text (modules_text sorted_text)))
    by (vm_compute; reflexivity).
  assert (Hne : result sorted_text (modules_text sorted_text) <> sorted_text)
    by (vm_compute; discriminate).
  split; [exact Ho|]. split; [exact Hne|].
  exact (@modules_altered_length sorted_text _ Ho Hne).
Defined.

(** ** The stages, one by one *)

Section StageFacts.

Variable E : env.

Lemma bind_cases (A B : Type) (m : M E A) (k : A -> M E B)
      (st st' : state E) (r : res B) :
  bind m k st = (r, st') ->
  (exists a st1, m st = (Ret a, st1) /\ k a st1 = (r, st'))
  \/ (exists c, m st = (Exit c, st') /\ r = Exit c)
  \/ (exists e, m st = (Raise e, st') /\ r = Raise e).
Proof.
  unfold bind. destruct (m st) as [[a|c|e] st1]; intros H.
  - left. exists a, st1. split; [reflexivity | exact H].
  - right. left. injection H as <- <-. exists c. split; reflexivity.
  - right. right. injection H as <- <-. exists e. split; reflexivity.
Qed.

(** X9.  The tree check runs [git status --porcelain] once.  If that
    fails it raises; otherwise it returns [True] exactly when [--force] is
    given or the output is white space only. *)
Theorem check_git_clean_outcome (force : bool) (st : state E) :
  check_git_clean force st
  = (let '(rc, out, w) := exec E cmd_status (world st) in
     (if (rc =? 0)%Z then Ret (force || forallb isspace out)
      else Raise (CalledProcessError cmd_status rc),
      log st w (EvRun cmd_status rc))).
Proof.
  unfold check_git_clean, bind, run_command, stdout_str, ret.
  destruct (exec E cmd_status (world st)) as [[rc out] w].
  destruct (rc =? 0)%Z; simpl; [|reflexivity].
  rewrite strip_blank.
  destruct (forallb isspace out); destruct force; reflexivity.
Qed.

(** X10.  The remotes check returns [False] exactly when [git remote -v]
    succeeds and its output lacks [origin] or the name of the fork; then
    nothing else was run.  A missing [upstream] never makes it return
    [False]: when it returns [True], [git remote add upstream ...] was run
    and returned 0 exactly if the output lacked [upstream] or the name of
    the upstream repository. *)
Theorem check_remotes_outcome (st st' : state E) :
  (check_remotes st = (Ret false, st') <->
   exists remotes w,
     exec E cmd_remote_v (world st) = (0%Z, remotes, w)
     /\ has_origin remotes = false
     /\ st' = log st w (EvRun cmd_remote_v 0%Z))
  /\ (check_remotes st = (Ret true, st') <->
      exists remotes w,
        exec E cmd_remote_v (world st) = (0%Z, remotes, w)
        /\ has_origin remotes = true
        /\ (has_upstream remotes = true
            /\ st' = log st w (EvRun cmd_remote_v 0%Z)
            \/ has_upstream remotes = false
               /\ exists out2 w2,
                    exec E cmd_remote_add w = (0%Z, out2, w2)
                    /\ st' = log (log st w (EvRun cmd_remote_v 0%Z)) w2
                               (EvRun cmd_remote_add 0%Z))).
Proof.
  unfold check_remotes, bind, run_command, stdout_str, ret.
  fold (has_origin). 
  destruct (exec E cmd_remote_v (world st)) as [[rc remotes] w] eqn:Hx.
  destruct (Z.eqb_spec rc 0) as [->|Hrc]; simpl.
  - fold (has_origin remotes). fold (has_upstream remotes).
    destruct (has_origin remotes) eqn:Ho; simpl.
    + destruct (has_upstream remotes) eqn:Hu; simpl.
      * split; split.
        -- discriminate.
        -- intros (r0 & w0 & H & Hf & _). injection H as <- <-. congruence.
        -- intros H. injection H as <-. exists remotes, w.
           split; [reflexivity|]. split; [exact Ho|]. left.
           split; [exact Hu | reflexivity].
        -- intros (r0 & w0 & H & _ & [[_ ->] | [Hf _]]).
           ++ injection H as <- <-. reflexivity.
           ++ injection H as <- <-. congruence.
      * destruct (exec E cmd_remote_add w) as [[rc2 out2] w2] eqn:Hx2.
        destruct (Z.eqb_spec rc2 0) as [->|Hrc2]; simpl.
        -- split; split.
           ++ discriminate.
           ++ intros (r0 & w0 & H & Hf & _). injection H as <- <-. congruence.
           ++ intros H. injection H as <-. exists remotes, w.
              split; [reflexivity|]. split; [exact Ho|]. right.
              split; [exact Hu|]. exists out2, w2. split; [exact Hx2|reflexivity].
           ++ intros (r0 & w0 & H & _ & [[Hf _] | [_ (o & w3 & Hx3 & ->)]]).
              ** injection H as <- <-. congruence.
              ** injection H as <- <-. rewrite Hx2 in Hx3.
                 injection Hx3 as <- <-. reflexivity.
        -- split; split.
           ++ discriminate.
           ++ intros (r0 & w0 & H & Hf & _). injection H as <- <-. congruence.
           ++ discriminate.
           ++ intros (r0 & w0 & H & _ & [[Hf _] | [_ (o & w3 & Hx3 & _)]]).
              ** injection H as <- <-. congruence.
              ** injection H as <- <-. rewrite Hx2 in Hx3.
                 injection Hx3 as Hz _ _. congruence.
    + split; split.
      * intros H. injection H as <-. exists remotes, w.
        split; [reflexivity|]. split; [exact Ho | reflexivity].
      * intros (r0 & w0 & H & _ & ->). injection H as <- <-. reflexivity.
      * discriminate.
      * intros (r0 & w0 & H & Hf & _). injection H as <- <-. congruence.
  - split; split.
    + discriminate.
    + intros (r0 & w0 & H & _). injection H as Hz _ _. congruence.
    + discriminate.
    + intros (r0 & w0 & H & _). injection H as Hz _ _. congruence.
Qed.

End StageFacts.

Section StageTraces.

Variable E : env.

Lemma extends_log1 (st : state E) (w : World E) (e : event) :
  extends st (log st w e) [e].
Proof. reflexivity. Qed.

Lemma extends_log2 (st : state E) (w1 w2 : World E) (e1 e2 : event) :
  extends st (log (log st w1 e1) w2 e2) [e1; e2].
Proof. unfold extends. simpl. rewrite <- app_assoc. reflexivity. Qed.

Lemma extends_log3 (st : state E) (w1 w2 w3 : World E) (e1 e2 e3 : event) :
  extends st (log (log (log st w1 e1) w2 e2) w3 e3) [e1; e2; e3].
Proof. unfold extends. simpl. rewrite <- !app_assoc. reflexivity. Qed.

Lemma extends_log4 (st : state E) (w1 w2 w3 w4 : World E)
      (e1 e2 e3 e4 : event) :
  extends st (log (log (log (log st w1 e1) w2 e2) w3 e3) w4 e4)
    [e1; e2; e3; e4].
Proof. unfold extends. simpl. rewrite <- !app_assoc. reflexivity. Qed.

(** X11.  The sync runs fetch, checkout and merge in this order and stops
    at the first non-zero return code: a failing fetch or checkout raises
    and the later commands are not run, a failing merge is
    [sys.exit(1)], and it returns only after three zeros. *)
Theorem sync_upstream_trace (st st' : state E) (r : res unit) :
  sync_upstream st = (r, st') ->
  exists evs,
    extends st st' evs
    /\ ((exists rc, rc <> 0%Z /\ evs = [EvRun cmd_fetch rc]
                    /\ r = Raise (CalledProcessError cmd_fetch rc))
        \/ (exists rc, rc <> 0%Z
                       /\ evs = [EvRun cmd_fetch 0%Z; EvRun cmd_checkout rc]
                       /\ r = Raise (CalledProcessError cmd_checkout rc))
        \/ (exists rc, rc <> 0%Z
                       /\ evs = [EvRun cmd_fetch 0%Z; EvRun cmd_checkout 0%Z;
                                 EvRun cmd_merge rc]
                       /\ r = Exit 1%Z)
        \/ (evs = [EvRun cmd_fetch 0%Z; EvRun cmd_checkout 0%Z;
                   EvRun cmd_merge 0%Z]
            /\ r = Ret tt)).
Proof.
  unfold sync_upstream, bind, run_command, sys_exit, ret.
  destruct (exec E cmd_fetch (world st)) as [[rc1 out1] w1].
  destruct (Z.eqb_spec rc1 0) as [->|H1]; simpl.
  2:{ intros H. apply pair_equal_spec in H. destruct H as [<- <-]. eexists. split; [apply extends_log1|].
      left. exists rc1. repeat split. exact H1. }
  destruct (exec E cmd_checkout w1) as [[rc2 out2] w2].
  destruct (Z.eqb_spec rc2 0) as [->|H2]; simpl.
  2:{ intros H. apply pair_equal_spec in H. destruct H as [<- <-]. eexists. split; [apply extends_log2|].
      right. left. exists rc2. repeat split. exact H2. }
  destruct (exec E cmd_merge w2) as [[rc3 out3] w3]. simpl.
  destruct (Z.eqb_spec rc3 0) as [->|H3]; simpl.
  - intros H. apply pair_equal_spec in H. destruct H as [<- <-]. eexists. split; [apply extends_log3|].
    right. right. right. split; reflexivity.
  - intros H. apply pair_equal_spec in H. destruct H as [<- <-]. eexists. split; [apply extends_log3|].
    right. right. left. exists rc3. repeat split. exact H3.
Qed.

(** X12.  Commit and push runs the status command first and raises if
    it fails.  If its output is white space only, nothing is added,
    committed or pushed and the result is [True].  If its output is
    anything else, add, commit and push run in this order, each only
    after the one before returned 0 (a failing add or commit raises), and
    the result is [True] exactly when the push returned 0.  A push that
    fails leaves the commit made. *)
Theorem commit_and_push_trace (st st' : state E) (r : res bool) :
  commit_and_push st = (r, st') ->
  exists rc0 out0 w0,
    exec E cmd_status (world st) = (rc0, out0, w0)
    /\ ((rc0 <> 0%Z
         /\ r = Raise (CalledProcessError cmd_status rc0)
         /\ st' = log st w0 (EvRun cmd_status rc0))
        \/ (rc0 = 0%Z /\ forallb isspace out0 = true
            /\ r = Ret true
            /\ st' = log st w0 (EvRun cmd_status 0%Z))
        \/ (rc0 = 0%Z /\ forallb isspace out0 = false
            /\ exists rc1 out1 w1,
                 exec E cmd_add w0 = (rc1, out1, w1)
                 /\ ((rc1 <> 0%Z
                      /\ r = Raise (CalledProcessError cmd_add rc1)
                      /\ st' = log (log st w0 (EvRun cmd_status 0%Z))
                                 w1 (EvRun cmd_add rc1))
                     \/ (rc1 = 0%Z
                         /\ exists rc2 out2 w2,
                              exec E cmd_commit w1 = (rc2, out2, w2)
                              /\ ((rc2 <> 0%Z
                                   /\ r = Raise
                                           (CalledProcessError cmd_commit rc2)
                                   /\ st' = log (log (log st w0
                                                        (EvRun cmd_status 0%Z))
                                                   w1 (EvRun cmd_add 0%Z))
                                              w2 (EvRun cmd_commit rc2))
                                  \/ (rc2 = 0%Z
                                      /\ exists rc3 out3 w3,
                                           exec E cmd_push w2
                                           = (rc3, out3, w3)
                                           /\ r = Ret (rc3 =? 0)%Z
                                           /\ st'
                                              = log (log (log (log st w0
                                                    (EvRun cmd_status 0%Z))
                                                    w1 (EvRun cmd_add 0%Z))
                                                    w2 (EvRun cmd_commit 0%Z))
                                                  w3 (EvRun cmd_push rc3))))))).
Proof.
  unfold commit_and_push, bind, run_command, stdout_str, ret.
  destruct (exec E cmd_status (world st)) as [[rc0 out0] w0].
  intros H. exists rc0, out0, w0. split; [reflexivity|]. revert H.
  destruct (Z.eqb_spec rc0 0) as [->|H0]; simpl.
  2:{ intros H. apply pair_equal_spec in H. destruct H as [<- <-].
      left. split; [exact H0|]. split; reflexivity. }
  rewrite strip_blank, negb_involutive.
  destruct (forallb isspace out0) eqn:Hs; simpl.
  { intros H. apply pair_equal_spec in H. destruct H as [<- <-].
    right. left. repeat split. }
  intros H. right. right. split; [reflexivity|]. split; [reflexivity|].
  destruct (exec E cmd_add w0) as [[rc1 out1] w1].
  exists rc1, out1, w1. split; [reflexivity|]. revert H.
  destruct (Z.eqb_spec rc1 0) as [->|H1]; simpl.
  2:{ intros H. apply pair_equal_spec in H. destruct H as [<- <-].
      left. split; [exact H1|]. split; reflexivity. }
  intros H. right. split; [reflexivity|].
  destruct (exec E cmd_commit w1) as [[rc2 out2] w2].
  exists rc2, out2, w2. split; [reflexivity|]. revert H.
  destruct (Z.eqb_spec rc2 0) as [->|H2]; simpl.
  2:{ intros H. apply pair_equal_spec in H. destruct H as [<- <-].
      left. split; [exact H2|]. split; reflexivity. }
  intros H. right. split; [reflexivity|].
  destruct (exec E cmd_push w2) as [[rc3 out3] w3]. simpl in H.
  exists rc3, out3, w3. split; [reflexivity|].
  destruct (rc3 =? 0)%Z; apply pair_equal_spec in H;
    destruct H as [<- <-]; split; reflexivity.
Qed.

Lemma patch_trace (p : text) (rule : text -> outcome)
      (st st' : state E) (r : res bool) :
  bind (file_exists p)
    (fun present =>
       if negb present then ret false
       else bind (file_read p) (fun content => finish p (rule content))) st
  = (r, st') ->
  patch_shape p rule st r st'.
Proof.
  unfold patch_shape, bind, file_exists, file_read, ret.
  destruct (path_exists E p (world st)) eqn:Hex; simpl.
  2:{ intros H. apply pair_equal_spec in H. destruct H as [<- <-].
      eexists. split; [apply extends_log1|]. left. repeat split. }
  destruct (read_text E p (world st)) as [content|] eqn:Hrd.
  2:{ intros H. apply pair_equal_spec in H. destruct H as [<- <-].
      eexists. split; [apply extends_log2|]. right. left.
      split; [reflexivity|]. split; [reflexivity|]. split; [reflexivity|].
      left. split; reflexivity. }
  destruct (rule content) as [|c|] eqn:Ho; simpl.
  - intros H. apply pair_equal_spec in H. destruct H as [<- <-].
    eexists. split; [apply extends_log2|]. right. left.
    split; [reflexivity|]. split; [reflexivity|]. split; [reflexivity|].
    right. exists content. split; [reflexivity|]. left.
    split; [exact Ho|reflexivity].
  - unfold bind, file_write, ret. simpl.
    destruct (write_text E p c (world st)) as [ok w] eqn:Hw.
    intros H.
    destruct ok; apply pair_equal_spec in H; destruct H as [<- <-];
      eexists; (split; [apply extends_log3|]); right; right;
      [exists content, c, true | exists content, c, false];
      (split; [reflexivity|]); (split; [reflexivity|]);
      (split; [exact Ho|]); (split; [exact Hw|]);
      (split; [reflexivity|]); reflexivity.
  - intros H. apply pair_equal_spec in H. destruct H as [<- <-].
    eexists. split; [apply extends_log2|]. right. left.
    split; [reflexivity|]. split; [reflexivity|]. split; [reflexivity|].
    right. exists content. split; [reflexivity|]. right.
    split; [exact Ho|reflexivity].
Qed.

(** X13.  Each patch function looks its file up and reads it at most
    once, touches no other path, and calls [write_text] at most once:
    with exactly the text its rule computes from the text just read.  It
    then returns [True] if the write went through and raises if it did
    not.  As long as no write is attempted (file missing, read raising,
    hook present, pattern not found) the environment is as it was; after
    a write it is the one the write left, also when the write raised. *)
Theorem patch_functions_shape (st st' : state E) (r : res bool) :
  (apply_toolsets_patch st = (r, st') ->
   patch_shape toolsets_path toolsets_text st r st')
  /\ (apply_modules_patch st = (r, st') ->
      patch_shape modules_path modules_text st r st').
Proof.
  split; intros H.
  - exact (patch_trace toolsets_path toolsets_text st H).
  - exact (patch_trace modules_path modules_text st H).
Qed.

Lemma run_tests_trace (st st' : state E) (r : res bool) :
  run_tests st = (r, st') ->
  exists rc, extends st st' [EvRun cmd_test rc] /\ r = Ret (rc =? 0)%Z.
Proof.
  unfold run_tests, bind, run_command, ret.
  destruct (exec E cmd_test (world st)) as [[rc out] w]. simpl.
  intros H. exists rc.
  destruct (rc =? 0)%Z; apply pair_equal_spec in H; destruct H as [<- <-];
    split; reflexivity.
Qed.

End StageTraces.

Lemma sync_upstream_trace_witness :
  let st := @start (sim_env all_ok) [] in
  sync_upstream st
  = (Ret tt, snd (sync_upstream st))
  /\ exists evs,
       extends st (snd (sync_upstream st)) evs
       /\ ((exists rc, rc <> 0%Z /\ evs = [EvRun cmd_fetch rc]
                       /\ Ret tt = Raise (CalledProcessError cmd_fetch rc))
           \/ (exists rc, rc <> 0%Z
                          /\ evs = [EvRun cmd_fetch 0%Z;
                                    EvRun cmd_checkout rc]
                          /\ Ret tt
                             = Raise (CalledProcessError cmd_checkout rc))
           \/ (exists rc, rc <> 0%Z
                          /\ evs = [EvRun cmd_fetch 0%Z;
                                    EvRun cmd_checkout 0%Z;
                                    EvRun cmd_merge rc]
                          /\ Ret tt = Exit 1%Z)
           \/ (evs = [EvRun cmd_fetch 0%Z; EvRun cmd_checkout 0%Z;
                      EvRun cmd_merge 0%Z]
               /\ Ret tt = Ret tt)).
Proof.
  cbv zeta.
  assert (H : sync_upstream (@start (sim_env all_ok) [])
              = (Ret tt, snd (sync_upstream (@start (sim_env all_ok) []))))
    by (vm_compute; reflexivity).
  split; [exact H|].
  exact (@sync_upstream_trace (sim_env all_ok) _ _ _ H).
Defined.

Lemma commit_and_push_trace_witness :
  let st := @start (sim_env dirty_answers) [] in
  commit_and_push st = (Ret true, snd (commit_and_push st))
  /\ exists rc0 out0 w0,
    exec (sim_env dirty_answers) cmd_status (world st) = (rc0, out0, w0)
    /\ ((rc0 <> 0%Z
         /\ Ret true = Raise (CalledProcessError cmd_status rc0)
         /\ snd (commit_and_push st) = log st w0 (EvRun cmd_status rc0))
        \/ (rc0 = 0%Z /\ forallb isspace out0 = true
            /\ Ret true = Ret true
            /\ snd (commit_and_push st) = log st w0 (EvRun cmd_status 0%Z))
        \/ (rc0 = 0%Z /\ forallb isspace out0 = false
            /\ exists rc1 out1 w1,
                 exec (sim_env dirty_answers) cmd_add w0 = (rc1, out1, w1)
                 /\ ((rc1 <> 0%Z
                      /\ Ret true = Raise (CalledProcessError cmd_add rc1)
                      /\ snd (commit_and_push st) = log (log st w0 (EvRun cmd_status 0%Z))
                                 w1 (EvRun cmd_add rc1))
                     \/ (rc1 = 0%Z
                         /\ exists rc2 out2 w2,
                              exec (sim_env dirty_answers) cmd_commit w1 = (rc2, out2, w2)
                              /\ ((rc2 <> 0%Z
                                   /\ Ret true = Raise
                                           (CalledProcessError cmd_commit rc2)
                                   /\ snd (commit_and_push st) = log (log (log st w0
                                                        (EvRun cmd_status 0%Z))
                                                   w1 (EvRun cmd_add 0%Z))
                                              w2 (EvRun cmd_commit rc2))
                                  \/ (rc2 = 0%Z
                                      /\ exists rc3 out3 w3,
                                           exec (sim_env dirty_answers) cmd_push w2
                                           = (rc3, out3, w3)
                                           /\ Ret true = Ret (rc3 =? 0)%Z
                                           /\ snd (commit_and_push st)
                                              = log (log (log (log st w0
                                                    (EvRun cmd_status 0%Z))
                                                    w1 (EvRun cmd_add 0%Z))
                                                    w2 (EvRun cmd_commit 0%Z))
                                                  w3 (EvRun cmd_push rc3))))))).
Proof.
  cbv zeta.
  assert (H : commit_and_push (@start (sim_env dirty_answers) [])
              = (Ret true,
                 snd (commit_and_push (@start (sim_env dirty_answers) []))))
    by (vm_compute; reflexivity).
  split; [exact H|].
  exact (@commit_and_push_trace (sim_env dirty_answers) _ _ _ H).
Defined.

Lemma patch_functions_shape_witness :
  let st := @start (full_disk_env all_ok)
              [(toolsets_path, lit "package toolsets")] in
  apply_toolsets_patch st
  = (Raise OtherError,
     State (full_disk_env all_ok)
       [(toolsets_path, []); (toolsets_path, lit "package toolsets")]
       [EvExists toolsets_path true; EvRead toolsets_path;
        EvWrite toolsets_path
          (lit "package toolsets" ++ [NL] ++ fusion_code)])
  /\ patch_shape toolsets_path toolsets_text st (Raise OtherError)
       (snd (apply_toolsets_patch st)).
Proof.
  cbv zeta.
  assert (H : apply_toolsets_patch
                (@start (full_disk_env all_ok)
                   [(toolsets_path, lit "package toolsets")])
              = (Raise OtherError,
                 snd (apply_toolsets_patch
                        (@start (full_disk_env all_ok)
                           [(toolsets_path, lit "package toolsets")]))))
    by (vm_compute; reflexivity).
  split; [vm_compute; reflexivity|].
  exact (proj1 (@patch_functions_shape (full_disk_env all_ok) _ _ _) H).
Defined.

(** ** What a run of [main] can do *)

Section MainEvents.

Variable E : env.

Lemma extends_refl (st : state E) : extends st st [].
Proof. unfold extends. rewrite app_nil_r. reflexivity. Qed.

Lemma extends_trans (st1 st2 st3 : state E) (e1 e2 : list event) :
  extends st1 st2 e1 -> extends st2 st3 e2 -> extends st1 st3 (e1 ++ e2).
Proof.
  unfold extends. intros H1 H2. rewrite H2, H1, app_assoc. reflexivity.
Qed.

Lemma emits_ret (A : Type) (Q : event -> Prop) (a : A) :
  emits_only Q (ret (E := E) a).
Proof.
  intros st r st' H. apply pair_equal_spec in H. destruct H as [_ <-].
  exists []. split; [apply extends_refl | constructor].
Qed.

Lemma emits_raise (A : Type) (Q : event -> Prop) (e : exn) :
  emits_only Q (raise (E := E) (A := A) e).
Proof.
  intros st r st' H. apply pair_equal_spec in H. destruct H as [_ <-].
  exists []. split; [apply extends_refl | constructor].
Qed.

Lemma emits_sys_exit (A : Type) (Q : event -> Prop) (code : Z) :
  emits_only Q (sys_exit (E := E) (A := A) code).
Proof.
  intros st r st' H. apply pair_equal_spec in H. destruct H as [_ <-].
  exists []. split; [apply extends_refl | constructor].
Qed.

Lemma emits_bind (A B : Type) (Q : event -> Prop)
      (m : M E A) (k : A -> M E B) :
  emits_only Q m -> (forall a, emits_only Q (k a)) ->
  emits_only Q (bind m k).
Proof.
  intros Hm Hk st r st' H. apply bind_cases in H.
  destruct H as [(a & st1 & H1 & H2) | [(c & H1 & _) | (e & H1 & _)]].
  - destruct (Hm _ _ _ H1) as (e1 & X1 & F1).
    destruct (Hk a _ _ _ H2) as (e2 & X2 & F2).
    exists (e1 ++ e2). split; [eapply extends_trans; eassumption|].
    apply Forall_app. split; assumption.
  - exact (Hm _ _ _ H1).
  - exact (Hm _ _ _ H1).
Qed.

Lemma emits_if (A : Type) (Q : event -> Prop) (b : bool) (m1 m2 : M E A) :
  emits_only Q m1 -> emits_only Q m2 ->
  emits_only Q (if b then m1 else m2).
Proof. destruct b; auto. Qed.

Lemma emits_run_command (Q : event -> Prop) (cmd : text)
      (check capture : bool) :
  (forall rc, Q (EvRun cmd rc)) ->
  emits_only Q (run_command (E := E) cmd check capture).
Proof.
  intros HQ st r st'. unfold run_command.
  destruct (exec E cmd (world st)) as [[rc out] w].
  intros H. exists [EvRun cmd rc]. split.
  - destruct (check && negb (rc =? 0)%Z); apply pair_equal_spec in H;
      destruct H as [_ <-]; reflexivity.
  - repeat constructor. apply HQ.
Qed.

Lemma emits_stdout_str (Q : event -> Prop) (r : completed) :
  emits_only Q (stdout_str (E := E) r).
Proof.
  unfold stdout_str. destruct (stdout r); [apply emits_ret | apply emits_raise].
Qed.

Lemma emits_file_exists (Q : event -> Prop) (p : text) :
  (forall b, Q (EvExists p b)) ->
  emits_only Q (file_exists (E := E) p).
Proof.
  intros HQ st r st' H. unfold file_exists in H.
  apply pair_equal_spec in H. destruct H as [_ <-].
  eexists. split; [apply extends_log1 | repeat constructor; apply HQ].
Qed.

Lemma emits_file_read (Q : event -> Prop) (p : text) :
  Q (EvRead p) -> emits_only Q (file_read (E := E) p).
Proof.
  intros HQ st r st' H. unfold file_read in H.
  exists [EvRead p]. split; [|repeat constructor; exact HQ].
  destruct (read_text E p (world st)); apply pair_equal_spec in H;
    destruct H as [_ <-]; reflexivity.
Qed.

Lemma emits_file_write (Q : event -> Prop) (p s : text) :
  Q (EvWrite p s) -> emits_only Q (file_write (E := E) p s).
Proof.
  intros HQ st r st' H. unfold file_write in H.
  destruct (write_text E p s (world st)) as [[|] w];
    apply pair_equal_spec in H; destruct H as [_ <-];
    eexists; (split; [apply extends_log1 | repeat constructor; exact HQ]).
Qed.

Lemma emits_finish (Q : event -> Prop) (p : text) (o : outcome) :
  (forall s, Q (EvWrite p s)) -> emits_only Q (finish (E := E) p o).
Proof.
  intros HQ. destruct o as [|c|]; simpl; try apply emits_ret.
  apply emits_bind; [apply emits_file_write, HQ | intros; apply emits_ret].
Qed.

Lemma main_event_cmd (c : text) (rc : Z) :
  In c main_cmds -> main_event (EvRun c rc).
Proof. intros H. left. exact H. Qed.

Ltac in_cmds := unfold main_cmds; simpl In; tauto.

Ltac emits :=
  repeat first
    [ apply emits_bind; [|intros ?]
    | apply emits_if
    | apply emits_ret
    | apply emits_sys_exit
    | apply emits_stdout_str
    | apply emits_run_command; intros ?; apply main_event_cmd; in_cmds
    | apply emits_file_exists; intros ?; right; simpl; tauto
    | apply emits_file_read; right; simpl; tauto
    | apply emits_finish; intros ?; right; simpl; tauto ].

Lemma emits_main (argv : list text) :
  emits_only main_event (main (E := E) argv).
Proof.
  unfold main, check_git_clean, check_remotes, sync_upstream,
    apply_toolsets_patch, apply_modules_patch, run_tests, commit_and_push.
  emits.
Qed.

(** X14.  Whatever the environment answers and however the run ends,
    the script runs no command outside its ten fixed command lines and
    looks up, reads or writes no path other than
    [pkg/toolsets/toolsets.go] and [pkg/mcp/modules.go]. *)
Theorem script_touches_only_targets (argv : list text) (st : state E) :
  exists evs,
    extends st (snd (script argv st)) evs /\ Forall main_event evs.
Proof.
  unfold script. destruct (main argv st) as [[[]|c|e] st'] eqn:Hm; simpl;
    exact (emits_main argv st Hm).
Qed.

End MainEvents.

(** ** The order of a run of [main] *)

Section MainOrder.

Variable E : env.

Lemma check_git_clean_events (force : bool) :
  emits_only (only_cmds [cmd_status]) (check_git_clean (E := E) force).
Proof.
  unfold check_git_clean.
  repeat first
    [ apply emits_bind; [|intros ?]
    | apply emits_if
    | apply emits_ret
    | apply emits_stdout_str
    | apply emits_run_command; intros ?; simpl; tauto ].
Qed.

Lemma check_remotes_events :
  emits_only (only_cmds [cmd_remote_v; cmd_remote_add])
    (check_remotes (E := E)).
Proof.
  unfold check_remotes.
  repeat first
    [ apply emits_bind; [|intros ?]
    | apply emits_if
    | apply emits_ret
    | apply emits_stdout_str
    | apply emits_run_command; intros ?; simpl; tauto ].
Qed.

Lemma sync_upstream_events (st st' : state E) (r : res unit) :
  sync_upstream st = (r, st') ->
  exists evs,
    extends st st' evs
    /\ Forall (only_cmds [cmd_fetch; cmd_checkout; cmd_merge]) evs
    /\ (r = Ret tt -> In (EvRun cmd_merge 0%Z) evs).
Proof.
  unfold sync_upstream, bind, run_command, sys_exit, ret.
  destruct (exec E cmd_fetch (world st)) as [[rc1 out1] w1].
  destruct (Z.eqb_spec rc1 0) as [->|H1]; simpl.
  2:{ intros H. apply pair_equal_spec in H. destruct H as [<- <-].
      eexists. split; [apply extends_log1|].
      split; [repeat constructor | discriminate]. }
  destruct (exec E cmd_checkout w1) as [[rc2 out2] w2].
  destruct (Z.eqb_spec rc2 0) as [->|H2]; simpl.
  2:{ intros H. apply pair_equal_spec in H. destruct H as [<- <-].
      eexists. split; [apply extends_log2|].
      split; [repeat constructor; simpl; tauto | discriminate]. }
  destruct (exec E cmd_merge w2) as [[rc3 out3] w3]. simpl.
  destruct (Z.eqb_spec rc3 0) as [->|H3]; simpl;
    intros H; apply pair_equal_spec in H; destruct H as [<- <-];
    eexists; (split; [apply extends_log3|]);
    (split; [repeat constructor; simpl; tauto|]).
  - intros _. simpl. tauto.
  - discriminate.
Qed.

Lemma patch_events (p : text) (rule : text -> outcome)
      (st st' : state E) (r : res bool) :
  patch_shape p rule st r st' ->
  exists evs,
    extends st st' evs
    /\ Forall (only_path p) evs
    /\ evs <> []
    /\ (r = Ret true -> In (EvExists p true) evs).
Proof.
  intros (evs & Hx & [(_ & -> & -> & _) | [(_ & -> & _ & _)
                      | (content & c & ok & _ & _ & _ & _ & -> & ->)]]);
    eexists; (split; [exact Hx|]); split;
    try (repeat constructor; simpl; reflexivity);
    (split; [discriminate|]);
    try discriminate; intros _; simpl; tauto.
Qed.

Lemma run_tests_events (st st' : state E) (r : res bool) :
  run_tests st = (r, st') ->
  exists evs,
    extends st st' evs
    /\ Forall (only_cmds [cmd_test]) evs
    /\ (r = Ret true -> In (EvRun cmd_test 0%Z) evs).
Proof.
  intros H. apply run_tests_trace in H. destruct H as (rc & Hx & ->).
  eexists. split; [exact Hx|]. split.
  - repeat constructor.
  - intros Hr. destruct (Z.eqb_spec rc 0) as [->|]; [|discriminate].
    simpl. tauto.
Qed.

Lemma app_split_notin (x : event) (l1 l2 a b : list event) :
  l1 ++ l2 = a ++ x :: b ->
  ~ In x l1 ->
  exists a', a = l1 ++ a' /\ l2 = a' ++ x :: b.
Proof.
  revert a. induction l1 as [|y l1 IH]; intros a Heq Hnot.
  - exists a. split; [reflexivity | exact Heq].
  - destruct a as [|y' a]; simpl in Heq.
    + exfalso. apply Hnot. left. congruence.
    + injection Heq as <- Heq.
      destruct (IH a Heq) as (a' & -> & H2).
      * intros Hin. apply Hnot. right. exact Hin.
      * exists a'. split; [reflexivity | exact H2].
Qed.

Lemma EvRun_cmd (c c' : text) (rc rc' : Z) :
  EvRun c rc = EvRun c' rc' -> c = c'.
Proof. intros H. injection H as Hc _. exact Hc. Qed.

Lemma cmd_push_distinct :
  cmd_status <> cmd_push /\ cmd_add <> cmd_push /\ cmd_commit <> cmd_push.
Proof.
  split; [|split]; intros H; vm_compute in H; discriminate.
Qed.

Lemma commit_and_push_events (st st' : state E) (r : res bool) :
  commit_and_push st = (r, st') ->
  exists evs,
    extends st st' evs
    /\ Forall (only_cmds [cmd_status; cmd_add; cmd_commit; cmd_push]) evs
    /\ (forall a b rc,
           evs = a ++ EvRun cmd_push rc :: b -> In (EvRun cmd_commit 0%Z) a).
Proof.
  destruct cmd_push_distinct as (Ds & Da & Dc).
  assert (Hshort : forall (l : list event),
             Forall (only_cmds [cmd_status; cmd_add; cmd_commit]) l ->
             forall a b rc, l = a ++ EvRun cmd_push rc :: b -> False).
  { intros l Hl a b rc ->. apply Forall_app in Hl. destruct Hl as [_ Hl].
    inversion Hl as [|? ? Hp _]; subst. simpl in Hp.
    destruct Hp as [Hp | [Hp | [Hp | []]]]; auto. }
  unfold commit_and_push, bind, run_command, stdout_str, ret.
  destruct (exec E cmd_status (world st)) as [[rc0 out0] w0].
  destruct (Z.eqb_spec rc0 0) as [->|H0]; simpl.
  2:{ intros H. apply pair_equal_spec in H. destruct H as [<- <-].
      eexists. split; [apply extends_log1|].
      split; [repeat constructor|].
      intros a b rc Heq. exfalso. refine (Hshort _ _ a b rc Heq).
      repeat constructor. }
  destruct (truthy (strip out0)); simpl.
  2:{ intros H. apply pair_equal_spec in H. destruct H as [<- <-].
      eexists. split; [apply extends_log1|].
      split; [repeat constructor|].
      intros a b rc Heq. exfalso. refine (Hshort _ _ a b rc Heq).
      repeat constructor. }
  destruct (exec E cmd_add w0) as [[rc1 out1] w1].
  destruct (Z.eqb_spec rc1 0) as [->|H1]; simpl.
  2:{ intros H. apply pair_equal_spec in H. destruct H as [<- <-].
      eexists. split; [apply extends_log2|].
      split; [repeat constructor; simpl; tauto|].
      intros a b rc Heq. exfalso. refine (Hshort _ _ a b rc Heq).
      repeat constructor; simpl; tauto. }
  destruct (exec E cmd_commit w1) as [[rc2 out2] w2].
  destruct (Z.eqb_spec rc2 0) as [->|H2]; simpl.
  2:{ intros H. apply pair_equal_spec in H. destruct H as [<- <-].
      eexists. split; [apply extends_log3|].
      split; [repeat constructor; simpl; tauto|].
      intros a b rc Heq. exfalso. refine (Hshort _ _ a b rc Heq).
      repeat constructor; simpl; tauto. }
  destruct (exec E cmd_push w2) as [[rc3 out3] w3]. simpl.
  intros H. eexists. split; [|split].
  - destruct (rc3 =? 0)%Z; apply pair_equal_spec in H;
      destruct H as [_ <-]; apply extends_log4.
  - repeat constructor; simpl; tauto.
  - intros a b rc Heq.
    change [EvRun cmd_status 0%Z; EvRun cmd_add 0%Z; EvRun cmd_commit 0%Z;
            EvRun cmd_push rc3]
      with ([EvRun cmd_status 0%Z; EvRun cmd_add 0%Z; EvRun cmd_commit 0%Z]
            ++ [EvRun cmd_push rc3]) in Heq.
    apply app_split_notin in Heq.
    + destruct Heq as (a' & -> & _). simpl. tauto.
    + simpl. intros [Hp | [Hp | [Hp | []]]];
        apply EvRun_cmd in Hp; auto.
Qed.

Lemma stage_events_stop1 (e1 : list event) :
  Forall (only_cmds [cmd_status]) e1 ->
  stage_events e1 [] [] [] [] [] [].
Proof.
  intros H. unfold stage_events.
  repeat split; auto. intros a b rc Hnil; destruct a; discriminate.
Qed.

Lemma exit_state (A : Type) (code : Z) (st st' : state E) (r : res A) :
  sys_exit code st = (r, st') -> st' = st.
Proof. intros H. apply pair_equal_spec in H. destruct H as [_ <-]. reflexivity. Qed.

Lemma ret_state (A : Type) (a : A) (st st' : state E) (r : res A) :
  ret a st = (r, st') -> st' = st.
Proof. intros H. apply pair_equal_spec in H. destruct H as [_ <-]. reflexivity. Qed.

(** A stage followed by the test [if not ok: sys.exit(1)]: either the
    stage returned [True] and the run goes on, or the run ends in the
    state the stage left. *)
Lemma stage_cases (A : Type) (m : M E bool) (k : M E A)
      (st st' : state E) (r : res A) :
  bind m (fun ok => if negb ok then sys_exit 1%Z else k) st = (r, st') ->
  (exists st1, m st = (Ret true, st1) /\ k st1 = (r, st'))
  \/ (exists r1, m st = (r1, st') /\ r1 <> Ret true).
Proof.
  intros H. apply bind_cases in H.
  destruct H as [(ok & st1 & H1 & H) | [(c & H1 & _) | (e & H1 & _)]].
  - destruct ok; simpl in H.
    + left. exists st1. split; assumption.
    + right. apply exit_state in H. subst st'.
      exists (Ret false). split; [exact H1 | discriminate].
  - right. exists (Exit c). split; [exact H1 | discriminate].
  - right. exists (Raise e). split; [exact H1 | discriminate].
Qed.

(** The events of any run of [main] fall into the seven stages. *)
Lemma main_stages (argv : list text) (st st' : state E) (r : res unit) :
  main argv st = (r, st') ->
  exists e1 e2 e3 e4 e5 e6 e7,
    extends st st' (e1 ++ e2 ++ e3 ++ e4 ++ e5 ++ e6 ++ e7)
    /\ stage_events e1 e2 e3 e4 e5 e6 e7.
Proof.
  unfold main. intros H.
  (* tree check *)
  apply stage_cases in H. destruct H as [(st1 & H1 & H) | (r1 & H1 & _)].
  2:{ destruct (check_git_clean_events _ _ H1) as (e1 & X1 & F1).
      exists e1, [], [], [], [], [], []. simpl. rewrite app_nil_r.
      split; [exact X1|]. unfold stage_events. repeat split; auto.
      intros a b rc Hnil; destruct a; discriminate. }
  destruct (check_git_clean_events _ _ H1) as (e1 & X1 & F1).
  (* remotes check *)
  apply stage_cases in H. destruct H as [(st2 & H2 & H) | (r2 & H2 & _)].
  2:{ destruct (check_remotes_events _ H2) as (e2 & X2 & F2).
      exists e1, e2, [], [], [], [], []. simpl. rewrite app_nil_r.
      split; [eapply extends_trans; eassumption|].
      unfold stage_events. repeat split; auto. intros a b rc Hnil; destruct a; discriminate. }
  destruct (check_remotes_events _ H2) as (e2 & X2 & F2).
  (* sync *)
  apply bind_cases in H.
  destruct H as [([] & st3 & H3 & H) | [(c & H3 & _) | (e & H3 & _)]].
  2:{ destruct (sync_upstream_events _ H3) as (e3 & X3 & F3 & _).
      exists e1, e2, e3, [], [], [], []. simpl. rewrite app_nil_r.
      split; [eapply extends_trans; [exact X1|];
              eapply extends_trans; eassumption|].
      unfold stage_events. repeat split; auto. intros a b rc Hnil; destruct a; discriminate. }
  2:{ destruct (sync_upstream_events _ H3) as (e3 & X3 & F3 & _).
      exists e1, e2, e3, [], [], [], []. simpl. rewrite app_nil_r.
      split; [eapply extends_trans; [exact X1|];
              eapply extends_trans; eassumption|].
      unfold stage_events. repeat split; auto. intros a b rc Hnil; destruct a; discriminate. }
  destruct (sync_upstream_events _ H3) as (e3 & X3 & F3 & M3).
  specialize (M3 eq_refl).
  (* toolsets patch *)
  apply stage_cases in H. destruct H as [(st4 & H4 & H) | (r4 & H4 & _)].
  2:{ destruct (patch_events (patch_trace toolsets_path toolsets_text _ H4))
        as (e4 & X4 & F4 & _ & _).
      exists e1, e2, e3, e4, [], [], []. simpl. rewrite app_nil_r.
      split; [eapply extends_trans; [exact X1|];
              eapply extends_trans; [exact X2|];
              eapply extends_trans; eassumption|].
      unfold stage_events. repeat split; auto. intros a b rc Hnil; destruct a; discriminate. }
  destruct (patch_events (patch_trace toolsets_path toolsets_text _ H4))
    as (e4 & X4 & F4 & _ & T4).
  specialize (T4 eq_refl).
  (* modules patch *)
  apply stage_cases in H. destruct H as [(st5 & H5 & H) | (r5 & H5 & _)].
  2:{ destruct (patch_events (patch_trace modules_path modules_text _ H5))
        as (e5 & X5 & F5 & _ & _).
      exists e1, e2, e3, e4, e5, [], []. simpl. rewrite app_nil_r.
      split; [eapply extends_trans; [exact X1|];
              eapply extends_trans; [exact X2|];
              eapply extends_trans; [exact X3|];
              eapply extends_trans; eassumption|].
      unfold stage_events. repeat split; auto. intros a b rc Hnil; destruct a; discriminate. }
  destruct (patch_events (patch_trace modules_path modules_text _ H5))
    as (e5 & X5 & F5 & _ & T5).
  specialize (T5 eq_refl).
  (* tests *)
  apply stage_cases in H. destruct H as [(st6 & H6 & H) | (r6 & H6 & _)].
  2:{ destruct (@run_tests_events _ _ _ H6) as (e6 & X6 & F6 & _).
      exists e1, e2, e3, e4, e5, e6, []. simpl. rewrite app_nil_r.
      split; [eapply extends_trans; [exact X1|];
              eapply extends_trans; [exact X2|];
              eapply extends_trans; [exact X3|];
              eapply extends_trans; [exact X4|];
              eapply extends_trans; eassumption|].
      unfold stage_events. repeat split; auto. intros a b rc Hnil; destruct a; discriminate. }
  destruct (@run_tests_events _ _ _ H6) as (e6 & X6 & F6 & T6).
  specialize (T6 eq_refl).
  (* commit and push *)
  assert (H7 : exists r7, commit_and_push st6 = (r7, st')).
  { apply stage_cases in H. destruct H as [(st7 & H7 & H) | (r7 & H7 & _)].
    - apply ret_state in H. subst st'. eexists. exact H7.
    - eexists. exact H7. }
  destruct H7 as (r7 & H7).
  destruct (@commit_and_push_events _ _ _ H7) as (e7 & X7 & F7 & P7).
  exists e1, e2, e3, e4, e5, e6, e7.
  split; [eapply extends_trans; [exact X1|];
          eapply extends_trans; [exact X2|];
          eapply extends_trans; [exact X3|];
          eapply extends_trans; [exact X4|];
          eapply extends_trans; [exact X5|];
          eapply extends_trans; eassumption|].
  unfold stage_events. repeat split; auto.
Qed.

End MainOrder.

Section RunOrder.

Variable E : env.

Lemma split_nonempty_list (x : event) (l a b : list event) :
  l = a ++ x :: b -> l <> [].
Proof. intros -> H. destruct a; discriminate. Qed.

Lemma in_nonempty (x : event) (l : list event) : In x l -> l <> [].
Proof. intros Hin ->. destruct Hin. Qed.

Ltac excl F :=
  let Hin := fresh "Hin" in
  intros Hin; rewrite Forall_forall in F; specialize (F _ Hin);
  cbn [only_cmds only_path In] in F;
  repeat (destruct F as [F|F]; [try (vm_compute in F; discriminate)|]);
  try contradiction; try (vm_compute in F; discriminate).

(** In the events of a run, split by stage: what comes before a push,
    before a write, and before the tests. *)
Lemma stage_order (e1 e2 e3 e4 e5 e6 e7 : list event) :
  stage_events e1 e2 e3 e4 e5 e6 e7 ->
  let evs := e1 ++ e2 ++ e3 ++ e4 ++ e5 ++ e6 ++ e7 in
  (forall a b rc,
      evs = a ++ EvRun cmd_push rc :: b ->
      In (EvRun cmd_merge 0%Z) a
      /\ In (EvExists toolsets_path true) a
      /\ In (EvExists modules_path true) a
      /\ In (EvRun cmd_test 0%Z) a
      /\ In (EvRun cmd_commit 0%Z) a)
  /\ (forall a b p c,
         evs = a ++ EvWrite p c :: b ->
         (p = toolsets_path \/ p = modules_path)
         /\ In (EvRun cmd_merge 0%Z) a)
  /\ (forall a b rc,
         evs = a ++ EvRun cmd_test rc :: b ->
         In (EvRun cmd_merge 0%Z) a
         /\ In (EvExists toolsets_path true) a
         /\ In (EvExists modules_path true) a).
Proof.
  intros (F1 & F2 & F3 & F4 & F5 & F6 & F7 & G4 & G5 & G6 & G7 & P7).
  cbv zeta.
  assert (C5 : e5 <> [] -> In (EvRun cmd_merge 0%Z) e3
                           /\ In (EvExists toolsets_path true) e4).
  { intros Hne. destruct G5 as [->|T4]; [contradiction|].
    split; [|exact T4].
    destruct G4 as [->|M3]; [destruct T4 | exact M3]. }
  assert (C6 : e6 <> [] -> In (EvRun cmd_merge 0%Z) e3
                           /\ In (EvExists toolsets_path true) e4
                           /\ In (EvExists modules_path true) e5).
  { intros Hne. destruct G6 as [->|T5]; [contradiction|].
    destruct (C5 (@in_nonempty _ _ T5)) as [M3 T4]. repeat split; assumption. }
  split; [|split].
  - intros a b rc Heq.
    apply app_split_notin in Heq; [|clear - F1; excl F1].
    destruct Heq as (a1 & -> & Heq).
    apply app_split_notin in Heq; [|clear - F2; excl F2].
    destruct Heq as (a2 & -> & Heq).
    apply app_split_notin in Heq; [|clear - F3; excl F3].
    destruct Heq as (a3 & -> & Heq).
    apply app_split_notin in Heq; [|clear - F4; excl F4].
    destruct Heq as (a4 & -> & Heq).
    apply app_split_notin in Heq; [|clear - F5; excl F5].
    destruct Heq as (a5 & -> & Heq).
    apply app_split_notin in Heq; [|clear - F6; excl F6].
    destruct Heq as (a6 & -> & Heq).
    pose proof (P7 _ _ _ Heq) as Hc.
    destruct G7 as [G7|T6]; [destruct (@split_nonempty_list _ _ _ _ Heq G7)|].
    destruct (C6 (@in_nonempty _ _ T6)) as (M3 & T4 & T5).
    rewrite !in_app_iff. tauto.
  - intros a b p c Heq.
    apply app_split_notin in Heq; [|clear - F1; excl F1].
    destruct Heq as (a1 & -> & Heq).
    apply app_split_notin in Heq; [|clear - F2; excl F2].
    destruct Heq as (a2 & -> & Heq).
    apply app_split_notin in Heq; [|clear - F3; excl F3].
    destruct Heq as (a3 & -> & Heq).
    assert (Hin : In (EvWrite p c) (e4 ++ e5 ++ e6 ++ e7))
      by (rewrite Heq; apply in_or_app; right; left; reflexivity).
    rewrite !in_app_iff in Hin.
    destruct Hin as [Hin | [Hin | [Hin | Hin]]].
    + pose proof (@in_nonempty _ _ Hin) as Hne.
      rewrite Forall_forall in F4. specialize (F4 _ Hin). simpl in F4.
      destruct G4 as [->|M3]; [contradiction|].
      split; [left; exact F4 | rewrite !in_app_iff; tauto].
    + destruct (C5 (@in_nonempty _ _ Hin)) as [M3 _].
      rewrite Forall_forall in F5. specialize (F5 _ Hin). simpl in F5.
      split; [right; exact F5 | rewrite !in_app_iff; tauto].
    + exfalso. revert Hin. clear - F6. excl F6.
    + exfalso. revert Hin. clear - F7. excl F7.
  - intros a b rc Heq.
    apply app_split_notin in Heq; [|clear - F1; excl F1].
    destruct Heq as (a1 & -> & Heq).
    apply app_split_notin in Heq; [|clear - F2; excl F2].
    destruct Heq as (a2 & -> & Heq).
    apply app_split_notin in Heq; [|clear - F3; excl F3].
    destruct Heq as (a3 & -> & Heq).
    apply app_split_notin in Heq; [|clear - F4; excl F4].
    destruct Heq as (a4 & -> & Heq).
    apply app_split_notin in Heq; [|clear - F5; excl F5].
    destruct Heq as (a5 & -> & Heq).
    assert (Hne : e6 <> []).
    { intros ->. simpl in Heq.
      destruct G7 as [->|T6]; [destruct a5; discriminate | destruct T6]. }
    destruct (C6 Hne) as (M3 & T4 & T5).
    rewrite !in_app_iff. tauto.
Qed.

Lemma script_stages (argv : list text) (st : state E) :
  exists e1 e2 e3 e4 e5 e6 e7,
    extends st (snd (script argv st)) (e1 ++ e2 ++ e3 ++ e4 ++ e5 ++ e6 ++ e7)
    /\ stage_events e1 e2 e3 e4 e5 e6 e7.
Proof.
  unfold script. destruct (main argv st) as [[[]|c|e] st'] eqn:Hm; simpl;
    exact (main_stages argv st Hm).
Qed.

(** X15.  In every run, a [git push] comes only after the merge returned
    0, both target files were found, [go test] returned 0 and
    [git commit] returned 0, all in this same run. *)
Theorem push_only_after_tests_and_commit (argv : list text) (st : state E) :
  exists evs,
    extends st (snd (script argv st)) evs
    /\ forall a b rc,
         evs = a ++ EvRun cmd_push rc :: b ->
         In (EvRun cmd_merge 0%Z) a
         /\ In (EvExists toolsets_path true) a
         /\ In (EvExists modules_path true) a
         /\ In (EvRun cmd_test 0%Z) a
         /\ In (EvRun cmd_commit 0%Z) a.
Proof.
  destruct (script_stages argv st)
    as (e1 & e2 & e3 & e4 & e5 & e6 & e7 & Hx & Hs).
  eexists. split; [exact Hx|]. exact (proj1 (@stage_order _ _ _ _ _ _ _ Hs)).
Qed.

(** X16.  In every run, a file is written only after [git merge] returned
    0 in this same run, and only one of the two target files. *)
Theorem write_only_after_merge (argv : list text) (st : state E) :
  exists evs,
    extends st (snd (script argv st)) evs
    /\ forall a b p c,
         evs = a ++ EvWrite p c :: b ->
         (p = toolsets_path \/ p = modules_path)
         /\ In (EvRun cmd_merge 0%Z) a.
Proof.
  destruct (script_stages argv st)
    as (e1 & e2 & e3 & e4 & e5 & e6 & e7 & Hx & Hs).
  eexists. split; [exact Hx|]. exact (proj1 (proj2 (@stage_order _ _ _ _ _ _ _ Hs))).
Qed.

(** X17.  In every run, [go test] is run only after the merge returned 0
    and both target files were found by their patch functions. *)
Theorem tests_only_after_patches (argv : list text) (st : state E) :
  exists evs,
    extends st (snd (script argv st)) evs
    /\ forall a b rc,
         evs = a ++ EvRun cmd_test rc :: b ->
         In (EvRun cmd_merge 0%Z) a
         /\ In (EvExists toolsets_path true) a
         /\ In (EvExists modules_path true) a.
Proof.
  destruct (script_stages argv st)
    as (e1 & e2 & e3 & e4 & e5 & e6 & e7 & Hx & Hs).
  eexists. split; [exact Hx|]. exact (proj2 (proj2 (@stage_order _ _ _ _ _ _ _ Hs))).
Qed.

End RunOrder.

(** X18.  When [main] has come to RULE_B and the import pattern is not
    found in [modules.go], the process ends with code 1 right after the
    file was read: the tests and the push are not run, [modules.go] is not
    written, and whatever was done before (such as the hook appended to
    [toolsets.go]) is left in place. *)
Theorem pattern_not_found_halts
        (E : env) (argv : list text) (st0 st : state E) (content : text) :
  reaches_modules argv st0 st ->
  path_exists E modules_path (world st) = true ->
  read_text E modules_path (world st) = Some content ->
  modules_text content = NotFound ->
  script argv st0 = (1%Z, seen st modules_path)
  /\ world (seen st modules_path) = world st.
Proof.
  intros (st3 & (st1 & st2 & H1 & H2 & H3) & H4) Hex Hrd Ho.
  pose proof (apply_modules_patch_not_found st Hex Hrd Ho) as H5.
  split; [|reflexivity].
  unfold script, main.
  repeat (erewrite bind_ret by eassumption; simpl).
  reflexivity.
Qed.

Lemma pattern_not_found_halts_witness :
  let st0 := @start (sim_env all_ok)
               [(toolsets_path, lit "package toolsets");
                (modules_path, lit "package mcp")] in
  let st := snd (apply_toolsets_patch
                   (snd (sync_upstream
                           (snd (check_remotes
                                   (snd (check_git_clean false st0))))))) in
  reaches_modules [] st0 st
  /\ script [] st0 = (1%Z, seen st modules_path)
  /\ world (seen st modules_path) = world st.
Proof.
  cbv zeta.
  set (st0 := @start (sim_env all_ok)
                [(toolsets_path, lit "package toolsets");
                 (modules_path, lit "package mcp")]).
  set (st3 := snd (sync_upstream
                     (snd (check_remotes (snd (check_git_clean false st0)))))).
  set (st := snd (apply_toolsets_patch st3)).
  assert (Hreach : reaches_modules [] st0 st).
  { exists st3. split.
    - exists (snd (check_git_clean false st0)),
        (snd (check_remotes (snd (check_git_clean false st0)))).
      split; [vm_compute; reflexivity|].
      split; vm_compute; reflexivity.
    - vm_compute; reflexivity. }
  split; [exact Hreach|].
  apply (@pattern_not_found_halts (sim_env all_ok) [] st0 st
           (lit "package mcp") Hreach).
  - vm_compute; reflexivity.
  - vm_compute; reflexivity.
  - vm_compute; reflexivity.
Defined.

(** ** The two precondition checks in [main] *)

(** X19.  On a tree that [git status --porcelain] reports as changed:
    with an argument equal to [--force] the tree check passes; without
    one the process ends with code 1 having run nothing but that status
    command, so before anything is fetched, merged or written. *)
Theorem dirty_tree_and_force
        (E : env) (argv : list text) (st : state E) (out : text)
        (w : World E) :
  exec E cmd_status (world st) = (0%Z, out, w) ->
  forallb isspace out = false ->
  (In (lit "--force") argv ->
   check_git_clean (existsb (text_eqb (lit "--force")) argv) st
   = (Ret true, log st w (EvRun cmd_status 0%Z)))
  /\ (~ In (lit "--force") argv ->
      script argv st = (1%Z, log st w (EvRun cmd_status 0%Z))).
Proof.
  intros Hx Hd.
  assert (Hc : forall force,
             check_git_clean force st
             = (Ret force, log st w (EvRun cmd_status 0%Z))).
  { intros force. unfold check_git_clean, bind, run_command, stdout_str, ret.
    rewrite Hx. simpl. rewrite strip_blank, Hd. simpl.
    destruct force; reflexivity. }
  split; intros Hf.
  - apply force_in_argv in Hf. rewrite Hf. apply Hc.
  - assert (Hb : existsb (text_eqb (lit "--force")) argv = false).
    { destruct (existsb (text_eqb (lit "--force")) argv) eqn:Hb;
        [|reflexivity].
      apply force_in_argv in Hb. contradiction. }
    unfold script, main. rewrite Hb.
    erewrite bind_ret by exact (Hc false). reflexivity.
Qed.

Lemma dirty_tree_and_force_witness :
  let st := @start (sim_env dirty_answers) [] in
  let out := snd (dirty_answers cmd_status) in
  check_git_clean (existsb (text_eqb (lit "--force")) [lit "--force"]) st
  = (Ret true, log st [] (EvRun cmd_status 0%Z))
  /\ script [] st = (1%Z, log st [] (EvRun cmd_status 0%Z)).
Proof.
  cbv zeta.
  destruct (@dirty_tree_and_force (sim_env dirty_answers) [lit "--force"]
              (@start (sim_env dirty_answers) [])
              (snd (dirty_answers cmd_status)) [])
    as [Hforce _]; [vm_compute; reflexivity | vm_compute; reflexivity |].
  destruct (@dirty_tree_and_force (sim_env dirty_answers) []
              (@start (sim_env dirty_answers) [])
              (snd (dirty_answers cmd_status)) [])
    as [_ Hplain]; [vm_compute; reflexivity | vm_compute; reflexivity |].
  split.
  - apply Hforce. left. reflexivity.
  - apply Hplain. intros [].
Defined.

(** X20.  When the tree check has passed and the output of
    [git remote -v] lacks [origin] or the name of the fork, the process
    ends with code 1 right after that command: nothing is fetched, merged
    or written. *)
Theorem bad_origin_halts
        (E : env) (argv : list text) (st0 st1 : state E) (remotes : text)
        (w : World E) :
  check_git_clean (existsb (text_eqb (lit "--force")) argv) st0
  = (Ret true, st1) ->
  exec E cmd_remote_v (world st1) = (0%Z, remotes, w) ->
  has_origin remotes = false ->
  script argv st0 = (1%Z, log st1 w (EvRun cmd_remote_v 0%Z)).
Proof.
  intros H1 Hx Ho.
  assert (H2 : check_remotes st1
               = (Ret false, log st1 w (EvRun cmd_remote_v 0%Z))).
  { apply check_remotes_bad_origin with (remotes := remotes);
      [exact Hx | exact Ho]. }
  unfold script, main.
  erewrite bind_ret by exact H1. simpl.
  erewrite bind_ret by exact H2. reflexivity.
Qed.

Lemma bad_origin_halts_witness :
  let st0 := @start (sim_env no_origin_answers) [] in
  let st1 := snd (check_git_clean false st0) in
  has_origin (snd (no_origin_answers cmd_remote_v)) = false
  /\ script [] st0 = (1%Z, log st1 [] (EvRun cmd_remote_v 0%Z)).
Proof.
  cbv zeta.
  assert (Ho : has_origin (snd (no_origin_answers cmd_remote_v)) = false)
    by (vm_compute; reflexivity).
  split; [exact Ho|].
  apply (@bad_origin_halts (sim_env no_origin_answers) []
           (@start (sim_env no_origin_answers) [])
           (snd (check_git_clean false
                   (@start (sim_env no_origin_answers) [])))
           (snd (no_origin_answers cmd_remote_v)) []).
  - vm_compute; reflexivity.
  - vm_compute; reflexivity.
  - exact Ho.
Defined.
